(** * MidiParser: a shallow embedding of [MidiParser.cpp]

    The C++ program reads a Standard MIDI File through an [ifstream], walks
    every track chunk event by event, prints a line for the events it decodes
    and collects the noteOn / noteOff events of each track in [trackNotes].

    The embedding keeps the shape of the source:
    - a byte is a [byte]; [u8] gives its value as an unsigned 8-bit [Z];
    - the [ifstream] is a cursor over the bytes of the file: the bytes
      already read (most recent first) and the bytes still to read;
    - [uint32_t] arithmetic is [Z] arithmetic with the wrap-around written out;
    - [doWork] threads its variables and the stream through a small
      state-and-error monad;
    - every [cout] line is recorded as a [Report] carrying the values that
      are printed.

    The source never tests the state of the stream.  After a read past the end
    of the file the C++ variables keep stale or indeterminate contents and the
    loop [while (!reachedEndOfTrack)] has no way to finish; the embedding stops
    at the first such read with [Fail EndOfFile].  An integer division by zero
    and an index outside a vector are undefined in C++ and stop the embedding
    as well. *)

From Stdlib Require Import ZArith List Lia Bool.
From Stdlib Require Import Strings.Byte.
Import ListNotations.

Local Open Scope Z_scope.

(** ** Bytes and machine integers *)

Definition u8 (b : byte) : Z := Z.of_N (Byte.to_N b).

(** The [uint8_t] holding the low eight bits of [z]. *)
Definition to_byte (z : Z) : byte :=
  match Byte.of_N (Z.to_N (z mod 256)) with
  | Some b => b
  | None => x00
  end.

Definition wrap32 (z : Z) : Z := z mod 2 ^ 32.

(** [x << n] on a [uint32_t]. *)
Definition shl32 (x n : Z) : Z := wrap32 (Z.shiftl x n).

(** ** Enumerations and structs of the source *)

Module EventType.
Definition noteOff : Z := 0x8.
Definition noteOn : Z := 0x9.
Definition noteAfterTouch : Z := 0xA.
Definition controller : Z := 0xB.
Definition programChange : Z := 0xC.
Definition channelAfterTouch : Z := 0xD.
Definition pitchBend : Z := 0xE.
Definition metaEvent : Z := 0xF.
End EventType.

Module MetaEventType.
Definition sequenceNumber : Z := 0x00.
Definition textEvent : Z := 0x01.
Definition copyrightNotice : Z := 0x02.
Definition sequenceTrackName : Z := 0x03.
Definition instrumentName : Z := 0x04.
Definition lyrics : Z := 0x05.
Definition marker : Z := 0x06.
Definition cuePoint : Z := 0x07.
Definition midiChannelPrefix : Z := 0x20.
Definition endOfTrack : Z := 0x2F.
Definition setTempo : Z := 0x51.
Definition smpteOffset : Z := 0x54.
Definition timeSignature : Z := 0x58.
Definition keySignature : Z := 0x59.
Definition sequencerSpecific : Z := 0x7F.
End MetaEventType.

Record Note : Type := mkNote { noteNumber : Z; on : bool }.

Record Header : Type := mkHeader {
  h_chunk_type : Z;
  h_length : Z;
  h_format : Z;
  h_ntrks : Z;
  h_division : Z
}.

Record Track : Type := mkTrack { t_chunk_type : Z; t_length : Z }.

(** ** The input stream *)

Record ifstream : Type := mkStream {
  consumed : list byte;   (* bytes before the cursor, the last one read first *)
  pending : list byte     (* bytes from the cursor to the end of the file *)
}.

Definition open (bytes : list byte) : ifstream := mkStream [] bytes.

Definition tellg (s : ifstream) : nat := length (consumed s).

(** ** Outcomes *)

Inductive Stuck : Type :=
| EndOfFile        (* a read found no byte left *)
| DivideByZero     (* [60000000 / mspm] with [mspm = 0] *)
| OutOfRange       (* [trackNotes[track_num]] outside the vector *)
| OutOfFuel.       (* the bound given to the embedding of a loop ran out *)

Inductive Res (A : Type) : Type :=
| Ok (a : A)
| Fail (e : Stuck).
Arguments Ok {A} a.
Arguments Fail {A} e.

(** [stream_object.read((char * )&temp, sizeof(char))].  The source does not
    test the stream after a read; the embedding follows it as long as every
    read finds a byte and stops at the first read that finds none. *)
Definition stream_read (s : ifstream) : Res (byte * ifstream) :=
  match pending s with
  | [] => Fail EndOfFile
  | b :: rest => Ok (b, mkStream (b :: consumed s) rest)
  end.

(** [file.seekg(-1, std::ios_base::cur)] *)
Definition stream_unread (s : ifstream) : ifstream :=
  match consumed s with
  | [] => s
  | b :: before => mkStream before (b :: pending s)
  end.

(** ** Helpers of [MidiFileParser] *)

Definition swapEndianess32 (input : Z) : Z :=
  let byte0 := Z.land (Z.shiftr input 24) 0x000000ff in
  let byte1 := Z.land (Z.shiftr input 8) 0x0000ff00 in
  let byte2 := Z.land (Z.shiftl input 8) 0x00ff0000 in
  let byte3 := Z.land (Z.shiftl input 24) 0xff000000 in
  Z.lor (Z.lor (Z.lor byte0 byte1) byte2) byte3.

Definition swapEndianess16 (input : Z) : Z :=
  let byte0 := Z.land (Z.shiftr input 8) 0x00ff in
  let byte1 := Z.land (Z.shiftl input 8) 0xff00 in
  Z.lor byte0 byte1.

Definition isMSBHigh (input : Z) : bool := negb (Z.land input 0x80 =? 0).

(** The body of [while (in_progress)], entered with [in_progress = true]; the
    recursion follows the bytes still to read. *)
Fixpoint readVariableLengthData_loop (result : Z) (before rest : list byte)
  : Res (Z * ifstream) :=
  match rest with
  | [] => Fail EndOfFile
  | temp :: rest' =>
      let in_progress := isMSBHigh (u8 temp) in
      let result := shl32 result 7 in
      let result := Z.lor result (Z.land (u8 temp) 0x7f) in
      if in_progress
      then readVariableLengthData_loop result (temp :: before) rest'
      else Ok (result, mkStream (temp :: before) rest')
  end.

Definition readVariableLengthData (s : ifstream) : Res (Z * ifstream) :=
  match stream_read s with
  | Fail e => Fail e
  | Ok (temp, s) =>
      let in_progress := isMSBHigh (u8 temp) in
      let result := Z.land (u8 temp) 0x7F in
      if in_progress
      then readVariableLengthData_loop result (consumed s) (pending s)
      else Ok (result, s)
  end.

(** [for (i = 0; i < length; i++) { read temp; value += temp; }] *)
Fixpoint readDefinedLengthData_loop (n : nat) (value : list byte) (s : ifstream)
  : Res (list byte * ifstream) :=
  match n with
  | O => Ok (value, s)
  | S n' =>
      match stream_read s with
      | Fail e => Fail e
      | Ok (temp, s) => readDefinedLengthData_loop n' (value ++ [temp]) s
      end
  end.

Definition readDefinedLengthData (s : ifstream) (length : Z)
  : Res (list byte * ifstream) :=
  readDefinedLengthData_loop (Z.to_nat length) [] s.

(** ** What [doWork] prints

    One constructor per [cout] line, with the values the line shows. *)

Inductive Report : Type :=
| RParserBanner (ntrks : Z)
| RTrackNumber (track_num : nat)
| RNoteOff (noteNumber velocity deltaTime : Z)
| RNoteOn (noteNumber velocity deltaTime : Z)
| RNoteAftertouch (noteNumber amount : Z)
| RController (controllerType value : Z)
| RProgramChange (programNumber : Z)
| RChannelAfterTouch (amount : Z)
| RPitchBend (valueLSB valueMSB : Z)
| RSequenceNumber (msb lsb : Z)
| RText (type : Z) (text : list byte)
| RMidiChannelPrefix (channel : Z)
| REndOfTrack
| RSetTempo (mspm bpm : Z)
| RSmpte (hour min sec subFr : Z)
| RTimeSignature (number denom metro thirtysecondnotes : Z)
| RKeySignature (key scale : Z)
| RSysexBegin
| RSysexEnd
| RStatusByteError (status : Z)
| RAllTracksProcessed.

(** ** The variables of [doWork]

    [deltaTime], [status], [statusUpper4Bits] and [tempNote] are assigned in
    every iteration before they are used, so they are locals of the iteration
    here.  [prevStatus] and [reachedEndOfTrack] live across iterations, and
    [prevStatus] across tracks: it is declared, and set to 0, once before the
    loop over the tracks. *)

Record State : Type := mkState {
  file : ifstream;
  track_chunk : Track;
  prevStatus : Z;
  reachedEndOfTrack : bool;
  trackNotes : list (list Note);
  out : list Report
}.

Definition M (A : Type) : Type := State -> Res (A * State).

Definition ret {A} (a : A) : M A := fun st => Ok (a, st).

Definition bind {A B} (m : M A) (k : A -> M B) : M B :=
  fun st =>
    match m st with
    | Ok (a, st') => k a st'
    | Fail e => Fail e
    end.

Definition stuck {A} (e : Stuck) : M A := fun _ => Fail e.

Declare Scope midi_scope.
Delimit Scope midi_scope with midi.
Notation "x <- m ;; k" := (bind m (fun x => k))
  (at level 61, m at next level, right associativity) : midi_scope.
Notation "m ;; k" := (bind m (fun _ => k))
  (at level 61, right associativity) : midi_scope.
Local Open Scope midi_scope.

Definition with_file (f : ifstream) (st : State) : State :=
  mkState f (track_chunk st) (prevStatus st) (reachedEndOfTrack st)
          (trackNotes st) (out st).

(** A call [h(file)] of a helper that reads from the stream. *)
Definition on_file {A} (h : ifstream -> Res (A * ifstream)) : M A :=
  fun st =>
    match h (file st) with
    | Ok (a, f) => Ok (a, with_file f st)
    | Fail e => Fail e
    end.

(** [file.read((char * )&x, sizeof(char))] into a variable whose other bytes
    are zero, and [file.get()]: the value of the byte read. *)
Definition file_read : M Z :=
  on_file (fun s => match stream_read s with
                    | Ok (b, s') => Ok (u8 b, s')
                    | Fail e => Fail e
                    end).

Definition file_seekg_back : M unit :=
  fun st => Ok (tt, with_file (stream_unread (file st)) st).

Definition get_prevStatus : M Z := fun st => Ok (prevStatus st, st).

Definition set_prevStatus (status : Z) : M unit :=
  fun st => Ok (tt, mkState (file st) (track_chunk st) status
                            (reachedEndOfTrack st) (trackNotes st) (out st)).

Definition set_reachedEndOfTrack (b : bool) : M unit :=
  fun st => Ok (tt, mkState (file st) (track_chunk st) (prevStatus st) b
                            (trackNotes st) (out st)).

Definition set_track_chunk (t : Track) : M unit :=
  fun st => Ok (tt, mkState (file st) t (prevStatus st) (reachedEndOfTrack st)
                            (trackNotes st) (out st)).

Definition cout (r : Report) : M unit :=
  fun st => Ok (tt, mkState (file st) (track_chunk st) (prevStatus st)
                            (reachedEndOfTrack st) (trackNotes st)
                            (out st ++ [r])).

(** [v[i].push_back(n)] *)
Fixpoint push_back_at (i : nat) (n : Note) (v : list (list Note))
  : option (list (list Note)) :=
  match v, i with
  | [], _ => None
  | notes :: v', O => Some ((notes ++ [n]) :: v')
  | notes :: v', S i' =>
      match push_back_at i' n v' with
      | Some w => Some (notes :: w)
      | None => None
      end
  end.

(** [trackNotes[track_num].push_back(tempNote)] *)
Definition trackNotes_push (track_num : nat) (tempNote : Note) : M unit :=
  fun st =>
    match push_back_at track_num tempNote (trackNotes st) with
    | Some v => Ok (tt, mkState (file st) (track_chunk st) (prevStatus st)
                                (reachedEndOfTrack st) v (out st))
    | None => Fail OutOfRange
    end.

(** [trackNotes.push_back(notesVector)] with an empty [notesVector] *)
Definition trackNotes_new_track : M unit :=
  fun st => Ok (tt, mkState (file st) (track_chunk st) (prevStatus st)
                            (reachedEndOfTrack st) (trackNotes st ++ [[]])
                            (out st)).

(** ** Reading the chunks *)

(** The value of a [uint32_t] / [uint16_t] whose bytes in memory are the ones
    given, on the little-endian host the program is written for. *)
Definition load32 (b0 b1 b2 b3 : byte) : Z :=
  Z.lor (Z.lor (Z.lor (u8 b0) (Z.shiftl (u8 b1) 8)) (Z.shiftl (u8 b2) 16))
        (Z.shiftl (u8 b3) 24).

Definition load16 (b0 b1 : byte) : Z := Z.lor (u8 b0) (Z.shiftl (u8 b1) 8).

(** [acquireHeaderData]: 14 bytes are read over the struct, then every field
    is byte-swapped. *)
Definition acquireHeaderData (s : ifstream) : Res (Header * ifstream) :=
  match readDefinedLengthData_loop 14 [] s with
  | Ok ([c0; c1; c2; c3; l0; l1; l2; l3; f0; f1; n0; n1; d0; d1], s') =>
      Ok (mkHeader (swapEndianess32 (load32 c0 c1 c2 c3))
                   (swapEndianess32 (load32 l0 l1 l2 l3))
                   (swapEndianess16 (load16 f0 f1))
                   (swapEndianess16 (load16 n0 n1))
                   (swapEndianess16 (load16 d0 d1)), s')
  | Ok (_, _) => Fail EndOfFile
  | Fail e => Fail e
  end.

(** [file.read((char * )&track_chunk, sizeof(track_chunk))] and the two swaps *)
Definition read_track_chunk (s : ifstream) : Res (Track * ifstream) :=
  match readDefinedLengthData_loop 8 [] s with
  | Ok ([c0; c1; c2; c3; l0; l1; l2; l3], s') =>
      Ok (mkTrack (swapEndianess32 (load32 c0 c1 c2 c3))
                  (swapEndianess32 (load32 l0 l1 l2 l3)), s')
  | Ok (_, _) => Fail EndOfFile
  | Fail e => Fail e
  end.

(** ** The event loop of [doWork] *)

Definition file_readVariableLengthData : M Z := on_file readVariableLengthData.

Definition file_readDefinedLengthData (length : Z) : M (list byte) :=
  on_file (fun s => readDefinedLengthData s length).

(** Lines 218-228: the candidate status byte is read; a byte below 0x80 is
    data, [prevStatus] takes its place and the stream moves back by one.
    Returns [status]; [statusUpper4Bits] is [status >> 4] on both paths. *)
Definition resolve_status : M Z :=
  status <- file_read ;;
  if status <? 0x80 then
    status <- get_prevStatus ;;
    file_seekg_back ;;
    ret status
  else ret status.

Definition case_noteOff (track_num : nat) (deltaTime status : Z) : M unit :=
  set_prevStatus status ;;
  noteNumber <- file_read ;;
  velocity <- file_read ;;
  cout (RNoteOff noteNumber velocity deltaTime) ;;
  trackNotes_push track_num (mkNote noteNumber false).

Definition case_noteOn (track_num : nat) (deltaTime status : Z) : M unit :=
  set_prevStatus status ;;
  noteNumber <- file_read ;;
  velocity <- file_read ;;
  cout (RNoteOn noteNumber velocity deltaTime) ;;
  trackNotes_push track_num (mkNote noteNumber true).

Definition case_noteAfterTouch (status : Z) : M unit :=
  set_prevStatus status ;;
  noteNumber <- file_read ;;
  amount <- file_read ;;
  cout (RNoteAftertouch noteNumber amount).

Definition case_controller (status : Z) : M unit :=
  set_prevStatus status ;;
  controllerType <- file_read ;;
  value <- file_read ;;
  cout (RController controllerType value).

Definition case_programChange (status : Z) : M unit :=
  set_prevStatus status ;;
  programNumber <- file_read ;;
  cout (RProgramChange programNumber).

Definition case_channelAfterTouch (status : Z) : M unit :=
  set_prevStatus status ;;
  amount <- file_read ;;
  cout (RChannelAfterTouch amount).

Definition case_pitchBend (status : Z) : M unit :=
  set_prevStatus status ;;
  valueLSB <- file_read ;;
  valueMSB <- file_read ;;
  cout (RPitchBend valueLSB valueMSB).

Definition is_text_type (type : Z) : bool :=
  (type =? MetaEventType.textEvent) || (type =? MetaEventType.copyrightNotice)
  || (type =? MetaEventType.sequenceTrackName)
  || (type =? MetaEventType.instrumentName) || (type =? MetaEventType.lyrics)
  || (type =? MetaEventType.marker) || (type =? MetaEventType.cuePoint).

(** Line 385: [mspm = (byte0 << 16) | (byte1 << 8) | (byte0)], on [uint32_t]
    variables that each hold one byte of the payload. *)
Definition setTempo_mspm (byte0 byte1 byte2 : Z) : Z :=
  Z.lor (Z.lor (shl32 byte0 16) (shl32 byte1 8)) byte0.

(** The meta-event types that have a [case] in the switch below. *)
Definition is_interpreted_type (type : Z) : bool :=
  (type =? MetaEventType.sequenceNumber) || is_text_type type
  || (type =? MetaEventType.midiChannelPrefix)
  || (type =? MetaEventType.endOfTrack) || (type =? MetaEventType.setTempo)
  || (type =? MetaEventType.smpteOffset)
  || (type =? MetaEventType.timeSignature)
  || (type =? MetaEventType.keySignature)
  || (type =? MetaEventType.sequencerSpecific).

(** [switch (type)] of the 0xFF branch.  The switch has no [default]: for a
    type outside the enumeration nothing is read and nothing is printed. *)
Definition meta_switch (type length : Z) : M unit :=
  if type =? MetaEventType.sequenceNumber then
    msb <- file_read ;;
    lsb <- file_read ;;
    cout (RSequenceNumber msb lsb)
  else if is_text_type type then
    text <- file_readDefinedLengthData length ;;
    cout (RText type text)
  else if type =? MetaEventType.midiChannelPrefix then
    channel <- file_read ;;
    cout (RMidiChannelPrefix channel)
  else if type =? MetaEventType.endOfTrack then
    set_reachedEndOfTrack true ;;
    cout REndOfTrack
  else if type =? MetaEventType.setTempo then
    byte0 <- file_read ;;
    byte1 <- file_read ;;
    byte2 <- file_read ;;
    let mspm := setTempo_mspm byte0 byte1 byte2 in
    if mspm =? 0 then stuck DivideByZero
    else
      let bpm := 60000000 / mspm in
      cout (RSetTempo mspm bpm)
  else if type =? MetaEventType.smpteOffset then
    hour <- file_read ;;
    min <- file_read ;;
    sec <- file_read ;;
    fr <- file_read ;;
    subFr <- file_read ;;
    cout (RSmpte hour min sec subFr)
  else if type =? MetaEventType.timeSignature then
    number <- file_read ;;
    denom <- file_read ;;
    metro <- file_read ;;
    thirtysecondnotes <- file_read ;;
    cout (RTimeSignature number denom metro thirtysecondnotes)
  else if type =? MetaEventType.keySignature then
    key <- file_read ;;
    scale <- file_read ;;
    cout (RKeySignature key scale)
  else if type =? MetaEventType.sequencerSpecific then
    text <- file_readDefinedLengthData length ;;
    ret tt
  else ret tt.

Definition case_metaEvent (status : Z) : M unit :=
  set_prevStatus status ;;
  if status =? 0xFF then
    type <- file_read ;;
    length <- file_readVariableLengthData ;;
    meta_switch type length
  else if status =? 0xF0 then
    type <- file_read ;;
    length <- file_readVariableLengthData ;;
    text <- file_readDefinedLengthData length ;;
    cout RSysexBegin
  else if status =? 0xF7 then
    type <- file_read ;;
    length <- file_readVariableLengthData ;;
    text <- file_readDefinedLengthData length ;;
    cout RSysexEnd
  else cout (RStatusByteError status).

(** [switch (statusUpper4Bits)]: no [default], so a nibble below 8 does
    nothing. *)
Definition dispatch (track_num : nat) (deltaTime status : Z) : M unit :=
  let statusUpper4Bits := Z.shiftr status 4 in
  if statusUpper4Bits =? EventType.noteOff then
    case_noteOff track_num deltaTime status
  else if statusUpper4Bits =? EventType.noteOn then
    case_noteOn track_num deltaTime status
  else if statusUpper4Bits =? EventType.noteAfterTouch then
    case_noteAfterTouch status
  else if statusUpper4Bits =? EventType.controller then
    case_controller status
  else if statusUpper4Bits =? EventType.programChange then
    case_programChange status
  else if statusUpper4Bits =? EventType.channelAfterTouch then
    case_channelAfterTouch status
  else if statusUpper4Bits =? EventType.pitchBend then
    case_pitchBend status
  else if statusUpper4Bits =? EventType.metaEvent then
    case_metaEvent status
  else ret tt.

(** One pass through the body of [while (!reachedEndOfTrack)]. *)
Definition event_iteration (track_num : nat) : M unit :=
  deltaTime <- file_readVariableLengthData ;;
  status <- resolve_status ;;
  dispatch track_num deltaTime status.

(** [while (!reachedEndOfTrack) { ... }].  Every pass that reads inside the
    file consumes at least one byte, so a [fuel] above the number of bytes
    left is never used up. *)
Fixpoint event_loop (fuel : nat) (track_num : nat) : M unit :=
  fun st =>
    if reachedEndOfTrack st then Ok (tt, st)
    else
      match fuel with
      | O => Fail OutOfFuel
      | S fuel' =>
          (event_iteration track_num ;; event_loop fuel' track_num) st
      end.

(** Lines 201-208: what the loop over the tracks does before the events. *)
Definition track_begin (track_num : nat) : M unit :=
  set_reachedEndOfTrack false ;;
  trackNotes_new_track ;;
  cout (RTrackNumber track_num) ;;
  t <- on_file read_track_chunk ;;
  set_track_chunk t.

Definition bytes_left : M nat := fun st => Ok (length (pending (file st)), st).

Definition one_track (track_num : nat) : M unit :=
  track_begin track_num ;;
  n <- bytes_left ;;
  event_loop (S n) track_num.

(** [for (track_num = 0; track_num < ntrks; track_num++)], with [count] the
    number of tracks still to go. *)
Fixpoint track_loop (count : nat) (track_num : nat) : M unit :=
  match count with
  | O => ret tt
  | S count' => one_track track_num ;; track_loop count' (S track_num)
  end.

(** [doWork] on the contents of a file that could be opened; [trackNotes]
    starts empty, as in the object that the constructor has just built. *)
Definition doWork (bytes : list byte) : Res State :=
  match acquireHeaderData (open bytes) with
  | Fail e => Fail e
  | Ok (header_chunk, f) =>
      let st := mkState f (mkTrack 0 0) 0 false [] [] in
      match (cout (RParserBanner (h_ntrks header_chunk)) ;;
             track_loop (Z.to_nat (h_ntrks header_chunk)) 0 ;;
             cout RAllTracksProcessed) st with
      | Ok (_, st') => Ok st'
      | Fail e => Fail e
      end
  end.

Definition getTrackNotes (st : State) : list (list Note) := trackNotes st.

(** ** Variable-length quantities as byte sequences *)

(** A run of bytes that [readVariableLengthData] reads as one quantity: bytes
    with bit 7 set, closed by one byte with bit 7 clear. *)
Fixpoint is_vlq (bs : list byte) : bool :=
  match bs with
  | [] => false
  | b :: bs' =>
      if isMSBHigh (u8 b) then is_vlq bs'
      else match bs' with [] => true | _ :: _ => false end
  end.

(** What the loop of [readVariableLengthData] accumulates over such a run. *)
Definition vlq_value (bs : list byte) : Z :=
  fold_left (fun result temp => Z.lor (shl32 result 7) (Z.land (u8 temp) 0x7f))
            bs 0.

(** The standard encoding of the MIDI file format, which the source does not
    contain: seven bits per byte, most significant group first, bit 7 set on
    every byte but the last.  [encodeVLQ_more groups v] gives the bytes of the
    groups above the lowest one. *)
Fixpoint encodeVLQ_more (groups : nat) (v : Z) : list byte :=
  match groups with
  | O => []
  | S groups' =>
      if v =? 0 then []
      else encodeVLQ_more groups' (Z.shiftr v 7)
             ++ [to_byte (Z.lor 0x80 (Z.land v 0x7F))]
  end.

Definition encodeVLQ (v : Z) : list byte :=
  encodeVLQ_more 4 (Z.shiftr v 7) ++ [to_byte (Z.land v 0x7F)].

(** ** Events as they lie in a track

    The byte layout of the events that [doWork] tells apart, used to state
    what a decoded track contains.  [wf_event], [wf_events] and [wf_chunk]
    below describe the tracks that the decoder frames as they are laid out.
    They are fewer than the valid tracks of a Standard MIDI File: a
    meta-event of a type without a [case] and a set-tempo payload that makes
    line 386 divide by zero are left out, and [doWork] does not decode the
    tracks that hold one as they are laid out (C1, C2, C3). *)

Inductive Event : Type :=
| Voice (status : byte) (data : list byte) (elided : bool)
    (* a channel event; [elided]: the status byte is left out of the stream *)
| MetaEv (type : byte) (payload : list byte)
| SysexEv (status : byte) (type : byte) (payload : list byte).

Definition payload_length (payload : list byte) : Z := Z.of_nat (length payload).

Definition event_bytes (e : Event) : list byte :=
  match e with
  | Voice status data elided => (if elided then [] else [status]) ++ data
  | MetaEv type payload =>
      [xff; type] ++ encodeVLQ (payload_length payload) ++ payload
  | SysexEv status type payload =>
      [status; type] ++ encodeVLQ (payload_length payload) ++ payload
  end.

Definition timed_event_bytes (de : Z * Event) : list byte :=
  encodeVLQ (fst de) ++ event_bytes (snd de).

Definition end_of_track_bytes (deltaTime : Z) : list byte :=
  encodeVLQ deltaTime ++ [xff; x2f; x00].

Definition track_bytes (events : list (Z * Event)) (last_delta : Z) : list byte :=
  flat_map timed_event_bytes events ++ end_of_track_bytes last_delta.

(** The status byte in force after an event. *)
Definition event_status (e : Event) : Z :=
  match e with
  | Voice status _ _ => u8 status
  | MetaEv _ _ => 0xFF
  | SysexEv status _ _ => u8 status
  end.

Definition voice_data_length (status : Z) : nat :=
  let family := Z.shiftr status 4 in
  if (family =? EventType.programChange) || (family =? EventType.channelAfterTouch)
  then 1%nat else 2%nat.

(** The payload a meta-event of an interpreted type carries: as many bytes as
    its [case] reads; for set tempo, bytes for which line 386 does not divide
    by zero.  End of track closes the track and is no event inside it. *)
Definition meta_payload_ok (type : Z) (payload : list byte) : bool :=
  if type =? MetaEventType.sequenceNumber then (length payload =? 2)%nat
  else if is_text_type type then true
  else if type =? MetaEventType.midiChannelPrefix then (length payload =? 1)%nat
  else if type =? MetaEventType.endOfTrack then false
  else if type =? MetaEventType.setTempo then
    match payload with
    | [b0; b1; b2] => negb (setTempo_mspm (u8 b0) (u8 b1) (u8 b2) =? 0)
    | _ => false
    end
  else if type =? MetaEventType.smpteOffset then (length payload =? 5)%nat
  else if type =? MetaEventType.timeSignature then (length payload =? 4)%nat
  else if type =? MetaEventType.keySignature then (length payload =? 2)%nat
  else if type =? MetaEventType.sequencerSpecific then true
  else false.

Definition valid_delta (d : Z) : bool := (0 <=? d) && (d <=? 0x0FFFFFFF).

(** [prev] is the status byte in force before the event. *)
Definition wf_event (prev : Z) (e : Event) : bool :=
  match e with
  | Voice status data elided =>
      (0x80 <=? u8 status) && (u8 status <? 0xF0)
      && (length data =? voice_data_length (u8 status))%nat
      && (if elided
          then (prev =? u8 status)
               && match data with
                  | d :: _ => u8 d <? 0x80
                  | [] => false
                  end
          else true)
  | MetaEv type payload =>
      meta_payload_ok (u8 type) payload
      && valid_delta (payload_length payload)
  | SysexEv status type payload =>
      ((u8 status =? 0xF0) || (u8 status =? 0xF7))
      && valid_delta (payload_length payload)
  end.

Fixpoint wf_events (prev : Z) (events : list (Z * Event)) : bool :=
  match events with
  | [] => true
  | (d, e) :: events' =>
      valid_delta d && wf_event prev e && wf_events (event_status e) events'
  end.

(** The notes among the events: one per noteOff and noteOn. *)
Definition event_notes (e : Event) : list Note :=
  match e with
  | Voice status (n :: _) _ =>
      let family := Z.shiftr (u8 status) 4 in
      if family =? EventType.noteOff then [mkNote (u8 n) false]
      else if family =? EventType.noteOn then [mkNote (u8 n) true]
      else []
  | _ => []
  end.

Definition track_notes (events : list (Z * Event)) : list Note :=
  flat_map (fun de => event_notes (snd de)) events.

(** The same, said event by event: which events are noteOff or noteOn, and
    the note each of them stands for. *)
Definition is_note_event (e : Event) : bool :=
  match e with
  | Voice status _ _ =>
      let family := Z.shiftr (u8 status) 4 in
      (family =? EventType.noteOff) || (family =? EventType.noteOn)
  | _ => false
  end.

Definition note_of (e : Event) : Note :=
  match e with
  | Voice status (n :: _) _ =>
      mkNote (u8 n) (Z.shiftr (u8 status) 4 =? EventType.noteOn)
  | _ => mkNote 0 false
  end.

Definition meta_reports (type : Z) (payload : list byte) : list Report :=
  if type =? MetaEventType.sequenceNumber then
    match payload with
    | [msb; lsb] => [RSequenceNumber (u8 msb) (u8 lsb)]
    | _ => []
    end
  else if is_text_type type then [RText type payload]
  else if type =? MetaEventType.midiChannelPrefix then
    match payload with
    | [channel] => [RMidiChannelPrefix (u8 channel)]
    | _ => []
    end
  else if type =? MetaEventType.setTempo then
    match payload with
    | [b0; b1; b2] =>
        let mspm := setTempo_mspm (u8 b0) (u8 b1) (u8 b2) in
        [RSetTempo mspm (60000000 / mspm)]
    | _ => []
    end
  else if type =? MetaEventType.smpteOffset then
    match payload with
    | [hour; min; sec; fr; subFr] =>
        [RSmpte (u8 hour) (u8 min) (u8 sec) (u8 subFr)]
    | _ => []
    end
  else if type =? MetaEventType.timeSignature then
    match payload with
    | [number; denom; metro; n32] =>
        [RTimeSignature (u8 number) (u8 denom) (u8 metro) (u8 n32)]
    | _ => []
    end
  else if type =? MetaEventType.keySignature then
    match payload with
    | [key; scale] => [RKeySignature (u8 key) (u8 scale)]
    | _ => []
    end
  else [].

(** The lines printed for an event read with the given delta-time. *)
Definition event_reports (deltaTime : Z) (e : Event) : list Report :=
  match e with
  | Voice status data _ =>
      let family := Z.shiftr (u8 status) 4 in
      match data with
      | [a] =>
          if family =? EventType.programChange then [RProgramChange (u8 a)]
          else if family =? EventType.channelAfterTouch
          then [RChannelAfterTouch (u8 a)]
          else []
      | [a; b] =>
          if family =? EventType.noteOff then [RNoteOff (u8 a) (u8 b) deltaTime]
          else if family =? EventType.noteOn
          then [RNoteOn (u8 a) (u8 b) deltaTime]
          else if family =? EventType.noteAfterTouch
          then [RNoteAftertouch (u8 a) (u8 b)]
          else if family =? EventType.controller then [RController (u8 a) (u8 b)]
          else if family =? EventType.pitchBend then [RPitchBend (u8 a) (u8 b)]
          else []
      | _ => []
      end
  | MetaEv type payload => meta_reports (u8 type) payload
  | SysexEv status _ _ =>
      if u8 status =? 0xF0 then [RSysexBegin] else [RSysexEnd]
  end.

Definition track_reports (events : list (Z * Event)) : list Report :=
  flat_map (fun de => event_reports (fst de) (snd de)) events.

(** The vector of vectors with [ns] pushed, in order, onto entry [i]. *)
Fixpoint extend_at (i : nat) (ns : list Note) (v : list (list Note))
  : list (list Note) :=
  match v, i with
  | [], _ => []
  | notes :: v', O => (notes ++ ns) :: v'
  | notes :: v', S i' => notes :: extend_at i' ns v'
  end.

(** The chunk descriptor that [read_track_chunk] builds from the eight bytes
    in front of the events of a track. *)
Definition track_chunk_of (chunk : list byte) : Track :=
  match chunk with
  | [c0; c1; c2; c3; l0; l1; l2; l3] =>
      mkTrack (swapEndianess32 (load32 c0 c1 c2 c3))
              (swapEndianess32 (load32 l0 l1 l2 l3))
  | _ => mkTrack 0 0
  end.

(** A track chunk in a file: the eight bytes of tag and declared length, the
    events, and the delta-time of the closing end-of-track event. *)
Record TrackChunk : Type := mkTrackChunk {
  chunk_head : list byte;
  chunk_events : list (Z * Event);
  chunk_last_delta : Z
}.

Definition chunk_bytes (t : TrackChunk) : list byte :=
  chunk_head t ++ track_bytes (chunk_events t) (chunk_last_delta t).

Definition wf_chunk (t : TrackChunk) : bool :=
  (length (chunk_head t) =? 8)%nat
  && wf_events 0 (chunk_events t)
  && valid_delta (chunk_last_delta t).

(** The track count that [acquireHeaderData] takes from the 14 bytes of a
    header. *)
Definition header_ntrks (head : list byte) : Z :=
  swapEndianess16 (load16 (nth 10 head x00) (nth 11 head x00)).

(** The lines printed for the tracks [tracks], numbered from [track_num]. *)
Fixpoint chunks_reports (track_num : nat) (tracks : list TrackChunk)
  : list Report :=
  match tracks with
  | [] => []
  | t :: tracks' =>
      RTrackNumber track_num :: track_reports (chunk_events t)
        ++ REndOfTrack :: chunks_reports (S track_num) tracks'
  end.

(** ** Sample inputs *)

(** "MThd", length 6, format 1, [ntrks] tracks, 96 ticks per quarter note. *)
Definition sample_header (ntrks : byte) : list byte :=
  [x4d; x54; x68; x64; x00; x00; x00; x06; x00; x01; x00; ntrks; x00; x60].

(** "MTrk" and a declared length below 256. *)
Definition sample_chunk_head (declared : byte) : list byte :=
  [x4d; x54; x72; x6b; x00; x00; x00; declared].

(** The variables of [doWork] when the event loop of the first track starts
    on the bytes [events]: [prevStatus] is still 0 and the track has its empty
    vector of notes. *)
Definition first_track_state (events : list byte) : State :=
  mkState (open events) (mkTrack 0 0) 0 false [[]] [].

(** Two tracks: the first has a noteOn, a noteOn under running status with
    velocity 0, a delayed noteOff, a tempo, a program change and a system
    exclusive message; the second has a track name and one controller. *)
Definition sample_tracks : list TrackChunk :=
  [ mkTrackChunk (sample_chunk_head x20)
      [ (0, Voice x90 [x3c; x40] false);
        (0, Voice x90 [x3e; x00] true);
        (200, Voice x80 [x3c; x40] false);
        (0, MetaEv x51 [x07; xa1; x20]);
        (0, Voice xc0 [x05] false);
        (16384, SysexEv xf0 x7e [x01; x02]) ]
      0;
    mkTrackChunk (sample_chunk_head x00)
      [ (0, MetaEv x03 [x50; x6e; x6f]);
        (96, Voice xb1 [x07; x64] false) ]
      10 ].

Definition sample_file : list byte :=
  sample_header x02 ++ flat_map chunk_bytes sample_tracks ++ [].

(** The variables of [doWork] when the loop over the tracks starts: the
    header has been read and the banner printed. *)
Definition tracks_start (ntrks : Z) (header body : list byte) : State :=
  mkState (mkStream (rev header) body) (mkTrack 0 0) 0 false []
          [RParserBanner ntrks].

(** The chunks of a file of two tracks.  The first track is one noteOn and
    the end of track; the second is the three bytes 00 2F 00, with 2F where
    a status byte should be. *)
Definition two_chunks : list byte :=
  sample_chunk_head x08 ++ [x00; x90; x3c; x40; x00; xff; x2f; x00]
    ++ sample_chunk_head x03 ++ [x00; x2f; x00].

(** The variables of [doWork] on that file after the first track, and when
    the event loop of the second track starts. *)
Definition two_chunks_after_first : State :=
  mkState
    (mkStream (rev (sample_header x02 ++ sample_chunk_head x08
                      ++ [x00; x90; x3c; x40; x00; xff; x2f; x00]))
              (sample_chunk_head x03 ++ [x00; x2f; x00]))
    (track_chunk_of (sample_chunk_head x08)) 0xFF true [[mkNote 60 true]]
    [RParserBanner 2; RTrackNumber 0; RNoteOn 60 64 0; REndOfTrack].

Definition two_chunks_second_start : State :=
  mkState
    (mkStream (rev (sample_header x02 ++ sample_chunk_head x08
                      ++ [x00; x90; x3c; x40; x00; xff; x2f; x00]
                      ++ sample_chunk_head x03))
              [x00; x2f; x00])
    (track_chunk_of (sample_chunk_head x03)) 0xFF false [[mkNote 60 true]; []]
    [RParserBanner 2; RTrackNumber 0; RNoteOn 60 64 0; REndOfTrack;
     RTrackNumber 1].

(** A file whose only track starts with the data bytes 3C 40. *)
Definition data_first_file : list byte :=
  sample_header x01 ++ sample_chunk_head x07
    ++ [x00; x3c; x40; x00; xff; x2f; x00].

(** ** Properties of commands used in the proofs *)

(** Whatever [m] does, a result is related to the state before by [R] and a
    stop is one of those in [E]. *)
Definition respects {A : Type} (R : State -> State -> Prop)
           (E : Stuck -> Prop) (m : M A) : Prop :=
  forall st,
    match m st with
    | Ok (_, st') => R st st'
    | Fail e => E e
    end.

Definition bytes_pending (st : State) : nat := length (pending (file st)).

(** [prevStatus] is untouched and the cursor has not moved backwards. *)
Definition steady (st st' : State) : Prop :=
  prevStatus st' = prevStatus st
  /\ (bytes_pending st' <= bytes_pending st)%nat.

(** As [steady], and [reachedEndOfTrack] is untouched too. *)
Definition calm (st st' : State) : Prop :=
  steady st st' /\ reachedEndOfTrack st' = reachedEndOfTrack st.

(** Stops that come from the bytes of the file. *)
Definition input_fault (e : Stuck) : Prop := e = EndOfFile \/ e = DivideByZero.

Definition not_fuel (e : Stuck) : Prop := e <> OutOfFuel.

(** ** Further notions used to state properties of the code *)

(** The number that a run of bytes spells in base 128, most significant
    group first, bit 7 of every byte left out. *)
Definition vlq_number (bs : list byte) : Z :=
  fold_left (fun n b => n * 128 + u8 b mod 128) bs 0.

(** The number that a run of bytes spells in base 256, first byte most
    significant. *)
Definition big_endian (bs : list byte) : Z :=
  fold_left (fun n b => n * 256 + u8 b) bs 0.

(** The note that a printed line announces, if it is a noteOff or noteOn
    line. *)
Definition report_notes (r : Report) : list Note :=
  match r with
  | RNoteOff noteNumber _ _ => [mkNote noteNumber false]
  | RNoteOn noteNumber _ _ => [mkNote noteNumber true]
  | _ => []
  end.

Definition printed_notes (lines : list Report) : list Note :=
  flat_map report_notes lines.

(** From [st] to [st'] the vector of track [k] has only grown, by the notes
    of the lines printed meanwhile; no other vector has changed. *)
Definition appends (k : nat) (st st' : State) : Prop :=
  exists lines,
    out st' = out st ++ lines
    /\ trackNotes st' = extend_at k (printed_notes lines) (trackNotes st).

(** [prevStatus] is its initial 0 or a byte with bit 7 set. *)
Definition status_recorded (st : State) : Prop :=
  prevStatus st = 0 \/ 0x80 <= prevStatus st <= 0xFF.

Definition with_prevStatus (status : Z) (st : State) : State :=
  mkState (file st) (track_chunk st) status (reachedEndOfTrack st)
          (trackNotes st) (out st).

(** Any stop at all. *)
Definition any_stop (e : Stuck) : Prop := True.

(** A second track of three events after a first track of one note: the
    variables when its event loop starts, and when it has ended. *)
Definition second_track_start : State :=
  mkState (open [x00; x90; x3c; x40; x00; xb0; x07; x64; x00; x80; x3c; x00;
                 x00; xff; x2f; x00])
          (mkTrack 0 0) 0xFF false [[mkNote 1 true]; [mkNote 2 false]] [].

Definition second_track_end : State :=
  mkState (mkStream (rev [x00; x90; x3c; x40; x00; xb0; x07; x64; x00; x80;
                          x3c; x00; x00; xff; x2f; x00]) [])
          (mkTrack 0 0) 0xFF true
          [[mkNote 1 true]; [mkNote 2 false; mkNote 60 true; mkNote 60 false]]
          [RNoteOn 60 64 0; RController 7 100; RNoteOff 60 0 0; REndOfTrack].

(** ** Tracks with a meta-event that has no [case] *)

(** A track whose only event is a meta-event of type 0x60 with the four
    payload bytes 00 90 3C 40; it holds no note event. *)
Definition stray_note_chunk : TrackChunk :=
  mkTrackChunk (sample_chunk_head x0c)
               [(0, MetaEv x60 [x00; x90; x3c; x40])] 0.

(** A track of such a meta-event with the payload 00 FF 01, followed three
    ticks later by one noteOn. *)
Definition lost_note_chunk : TrackChunk :=
  mkTrackChunk (sample_chunk_head x0f)
               [(0, MetaEv x60 [x00; xff; x01]);
                (3, Voice x90 [x3c; x40] false)] 0.

(** ** Events of the 0xF family *)

(** The bytes that the 0xFF branch reads behind the type and the length
    [ls]: none for end of track and for a type without a [case], the fixed
    number of the [case] otherwise, or as many as the length says for the
    text types and the sequencer-specific type. *)
Definition meta_taken_ok (type : Z) (ls payload : list byte) : bool :=
  if (type =? MetaEventType.endOfTrack) || negb (is_interpreted_type type)
  then (length payload =? 0)%nat
  else meta_payload_ok type payload
       && (if is_text_type type || (type =? MetaEventType.sequencerSpecific)
           then vlq_value ls =? payload_length payload
           else true).

(** The bytes that a pass reads behind a status byte [s] of the 0xF family,
    branch by branch of [case_metaEvent]. *)
Inductive f_family_body (s : byte) : list byte -> Prop :=
| body_meta (type : byte) (ls payload : list byte) :
    u8 s = 0xFF ->
    is_vlq ls = true ->
    meta_taken_ok (u8 type) ls payload = true ->
    f_family_body s (type :: ls ++ payload)
| body_sysex (type : byte) (ls payload : list byte) :
    u8 s = 0xF0 \/ u8 s = 0xF7 ->
    is_vlq ls = true ->
    vlq_value ls = payload_length payload ->
    f_family_body s (type :: ls ++ payload)
| body_other :
    0xF0 <= u8 s -> u8 s <> 0xFF -> u8 s <> 0xF0 -> u8 s <> 0xF7 ->
    f_family_body s [].



(** * Proofs *)

(** ** Bytes *)

Lemma u8_range (b : byte) : 0 <= u8 b < 256.
Proof.
  unfold u8. pose proof (Byte.to_N_bounded b). lia.
Qed.

Lemma u8_to_byte (z : Z) : 0 <= z < 256 -> u8 (to_byte z) = z.
Proof.
  intros Hz. unfold to_byte, u8.
  rewrite Z.mod_small by lia.
  destruct (Byte.of_N (Z.to_N z)) as [b|] eqn:E.
  - apply Byte.to_of_N in E. rewrite E. lia.
  - apply Byte.of_N_None_iff in E. lia.
Qed.

Lemma low7_range (v : Z) : 0 <= Z.land v 0x7F < 128.
Proof.
  change 0x7F with (Z.ones 7). rewrite Z.land_ones by lia.
  apply Z.mod_pos_bound. reflexivity.
Qed.

Lemma low7_disjoint (v : Z) : Z.land 0x80 (Z.land v 0x7F) = 0.
Proof.
  rewrite (Z.land_comm v), Z.land_assoc. reflexivity.
Qed.

Lemma cont_byte_value (v : Z) :
  Z.lor 0x80 (Z.land v 0x7F) = 128 + Z.land v 0x7F.
Proof.
  rewrite <- Z.lxor_lor by apply low7_disjoint.
  symmetry. apply Z.add_nocarry_lxor, low7_disjoint.
Qed.

Lemma u8_last_byte (v : Z) : u8 (to_byte (Z.land v 0x7F)) = Z.land v 0x7F.
Proof. apply u8_to_byte. pose proof (low7_range v). lia. Qed.

Lemma u8_cont_byte (v : Z) :
  u8 (to_byte (Z.lor 0x80 (Z.land v 0x7F))) = Z.lor 0x80 (Z.land v 0x7F).
Proof.
  apply u8_to_byte. rewrite cont_byte_value. pose proof (low7_range v). lia.
Qed.

Lemma isMSBHigh_last_byte (v : Z) :
  isMSBHigh (u8 (to_byte (Z.land v 0x7F))) = false.
Proof.
  rewrite u8_last_byte. unfold isMSBHigh.
  rewrite Z.land_comm, low7_disjoint. reflexivity.
Qed.

Lemma isMSBHigh_cont_byte (v : Z) :
  isMSBHigh (u8 (to_byte (Z.lor 0x80 (Z.land v 0x7F)))) = true.
Proof.
  rewrite u8_cont_byte. unfold isMSBHigh.
  rewrite Z.land_lor_distr_l, (Z.land_comm (Z.land v 0x7F)), low7_disjoint.
  reflexivity.
Qed.

Lemma low7_of_cont_byte (v : Z) :
  Z.land (Z.lor 0x80 (Z.land v 0x7F)) 0x7f = Z.land v 0x7F.
Proof.
  rewrite Z.land_lor_distr_l, <- Z.land_assoc. reflexivity.
Qed.

Lemma low7_idem (v : Z) : Z.land (Z.land v 0x7F) 0x7f = Z.land v 0x7F.
Proof. rewrite <- Z.land_assoc. reflexivity. Qed.

(** Putting the low seven bits back under the rest gives the number again. *)
Lemma shift7_split (v : Z) :
  0 <= v -> Z.lor (Z.shiftl (Z.shiftr v 7) 7) (Z.land v 0x7F) = v.
Proof.
  intros Hv. apply Z.bits_inj'. intros n Hn.
  rewrite Z.lor_spec, Z.land_spec.
  change 0x7F with (Z.ones 7).
  destruct (Z.ltb_spec n 7) as [Hlt | Hge].
  - rewrite Z.shiftl_spec_low by lia.
    rewrite Z.ones_spec_low by lia. now rewrite andb_true_r.
  - rewrite Z.shiftl_spec by lia.
    rewrite Z.shiftr_spec by lia.
    rewrite Z.ones_spec_high by lia.
    rewrite andb_false_r, orb_false_r. f_equal. lia.
Qed.

Lemma shl32_shiftr7 (v : Z) :
  0 <= v < 2 ^ 32 -> shl32 (Z.shiftr v 7) 7 = Z.shiftl (Z.shiftr v 7) 7.
Proof.
  intros Hv. unfold shl32, wrap32. apply Z.mod_small.
  rewrite Z.shiftl_mul_pow2, Z.shiftr_div_pow2 by lia.
  pose proof (Z.mul_div_le v (2 ^ 7) ltac:(lia)).
  assert (0 <= v / 2 ^ 7) by (apply Z.div_pos; lia).
  lia.
Qed.

(** ** Byte order *)

Lemma u8_high_bits (b : byte) (n : Z) : 8 <= n -> Z.testbit (u8 b) n = false.
Proof.
  intros Hn. pose proof (u8_range b) as Hb.
  destruct (Z.eq_dec (u8 b) 0) as [E | E].
  - rewrite E. apply Z.testbit_0_l.
  - apply Z.bits_above_log2; [lia|].
    apply Z.lt_le_trans with 8; [|assumption].
    apply Z.log2_lt_pow2; lia.
Qed.

(** The two swaps of [swapEndianess16] undo the little-endian load: the
    field gets the big-endian value of its two bytes in the file. *)
Lemma swapEndianess16_load16 (b0 b1 : byte) :
  swapEndianess16 (load16 b0 b1) = u8 b0 * 256 + u8 b1.
Proof.
  pose proof (u8_range b0) as H0. pose proof (u8_range b1) as H1.
  assert (Hbits : swapEndianess16 (load16 b0 b1)
                  = Z.lor (Z.shiftl (u8 b0) 8) (u8 b1)).
  { unfold swapEndianess16, load16. apply Z.bits_inj'. intros n Hn.
    change 0x00ff with (Z.ones 8). change 0xff00 with (Z.shiftl (Z.ones 8) 8).
    rewrite !Z.lor_spec, !Z.land_spec, Z.shiftr_spec by assumption.
    rewrite !Z.lor_spec.
    destruct (Z.ltb_spec n 8) as [Hlt | Hge].
    - rewrite !(Z.shiftl_spec_low _ _ n) by lia.
      rewrite Z.ones_spec_low by lia.
      rewrite (u8_high_bits b0 (n + 8)) by lia.
      rewrite Z.shiftl_spec by lia.
      replace (n + 8 - 8) with n by lia.
      now rewrite andb_true_r, andb_false_r, orb_false_r.
    - rewrite Z.ones_spec_high by lia.
      rewrite !(Z.shiftl_spec _ _ n) by lia.
      rewrite (u8_high_bits b1 n) by lia.
      rewrite andb_false_r. cbn [orb].
      rewrite Z.lor_spec.
      destruct (Z.ltb_spec (n - 8) 8) as [Hlt | Hge'].
      + rewrite Z.ones_spec_low by lia.
        rewrite Z.shiftl_spec_low by lia.
        now rewrite andb_true_r.
      + rewrite Z.ones_spec_high by lia.
        rewrite (u8_high_bits b0 (n - 8)) by lia.
        now rewrite andb_false_r. }
  rewrite Hbits.
  assert (Hdisj : Z.land (Z.shiftl (u8 b0) 8) (u8 b1) = 0).
  { apply Z.bits_inj'. intros n Hn.
    rewrite Z.land_spec, Z.bits_0.
    destruct (Z.ltb_spec n 8) as [Hlt | Hge].
    - now rewrite Z.shiftl_spec_low by lia.
    - rewrite (u8_high_bits b1 n) by lia. apply andb_false_r. }
  rewrite <- Z.lxor_lor by assumption.
  rewrite <- Z.add_nocarry_lxor by assumption.
  rewrite Z.shiftl_mul_pow2 by lia. reflexivity.
Qed.

Lemma header_ntrks_big_endian (head : list byte) :
  header_ntrks head = u8 (nth 10 head x00) * 256 + u8 (nth 11 head x00).
Proof. apply swapEndianess16_load16. Qed.

(** ** [readVariableLengthData] *)

Lemma vlq_value_snoc (bs : list byte) (b : byte) :
  vlq_value (bs ++ [b])
  = Z.lor (shl32 (vlq_value bs) 7) (Z.land (u8 b) 0x7f).
Proof. unfold vlq_value. now rewrite fold_left_app. Qed.

Lemma readVariableLengthData_loop_run (bs : list byte) :
  forall result before rest,
    is_vlq bs = true ->
    readVariableLengthData_loop result before (bs ++ rest)
    = Ok (fold_left (fun result temp =>
                       Z.lor (shl32 result 7) (Z.land (u8 temp) 0x7f))
                    bs result,
          mkStream (rev bs ++ before) rest).
Proof.
  induction bs as [|b bs IH]; intros result before rest Hbs.
  - discriminate.
  - simpl in Hbs. simpl.
    destruct (isMSBHigh (u8 b)).
    + rewrite IH by assumption. now rewrite <- app_assoc.
    + destruct bs; [reflexivity | discriminate].
Qed.

(** On a well-delimited run of bytes the function returns the accumulated
    value and leaves the cursor right behind the run. *)
Lemma readVariableLengthData_run (bs before rest : list byte) :
  is_vlq bs = true ->
  readVariableLengthData (mkStream before (bs ++ rest))
  = Ok (vlq_value bs, mkStream (rev bs ++ before) rest).
Proof.
  destruct bs as [|b bs]; [discriminate|]. intros Hbs.
  unfold readVariableLengthData, stream_read, vlq_value. simpl in *.
  destruct (isMSBHigh (u8 b)).
  - rewrite readVariableLengthData_loop_run by assumption.
    now rewrite <- app_assoc.
  - destruct bs; [reflexivity | discriminate].
Qed.

Lemma is_vlq_snoc (cs : list byte) (b : byte) :
  forallb (fun c => isMSBHigh (u8 c)) cs = true ->
  isMSBHigh (u8 b) = false ->
  is_vlq (cs ++ [b]) = true.
Proof.
  intros Hcs Hb. induction cs as [|c cs IH]; simpl in *.
  - now rewrite Hb.
  - apply andb_prop in Hcs as [Hc Hcs]. rewrite Hc. auto.
Qed.

Lemma encodeVLQ_more_cont (groups : nat) :
  forall v, forallb (fun c => isMSBHigh (u8 c)) (encodeVLQ_more groups v) = true.
Proof.
  induction groups as [|g IH]; intros v; cbn [encodeVLQ_more]; [reflexivity|].
  destruct (v =? 0); [reflexivity|].
  rewrite forallb_app, IH. cbn [forallb andb].
  now rewrite isMSBHigh_cont_byte.
Qed.

Lemma is_vlq_encodeVLQ (v : Z) : is_vlq (encodeVLQ v) = true.
Proof.
  apply is_vlq_snoc.
  - apply encodeVLQ_more_cont.
  - apply isMSBHigh_last_byte.
Qed.

Lemma shiftr7_bound (v : Z) (g : nat) :
  0 <= v < 2 ^ (7 * Z.of_nat (S g)) -> 0 <= Z.shiftr v 7 < 2 ^ (7 * Z.of_nat g).
Proof.
  intros Hv. rewrite Z.shiftr_div_pow2 by lia. split.
  - apply Z.div_pos; lia.
  - apply Z.div_lt_upper_bound; [lia|].
    rewrite <- Z.pow_add_r by lia.
    replace (7 + 7 * Z.of_nat g) with (7 * Z.of_nat (S g)) by lia. lia.
Qed.

Lemma shiftr7_le (v : Z) : 0 <= v -> Z.shiftr v 7 <= v.
Proof.
  intros Hv. rewrite Z.shiftr_div_pow2 by lia.
  apply Z.div_le_upper_bound; lia.
Qed.

Lemma vlq_value_encodeVLQ_more (groups : nat) :
  forall v,
    0 <= v < 2 ^ 32 -> v < 2 ^ (7 * Z.of_nat groups) ->
    vlq_value (encodeVLQ_more groups v) = v.
Proof.
  induction groups as [|g IH]; intros v Hv Hg.
  - simpl in *. assert (v = 0) by lia. now subst.
  - cbn [encodeVLQ_more].
    destruct (Z.eqb_spec v 0) as [-> | Hnz]; [reflexivity|].
    rewrite vlq_value_snoc, u8_cont_byte, low7_of_cont_byte.
    pose proof (shiftr7_bound v g ltac:(lia)).
    pose proof (shiftr7_le v ltac:(lia)).
    rewrite IH by lia.
    rewrite shl32_shiftr7 by lia.
    apply shift7_split. lia.
Qed.

Lemma vlq_value_encodeVLQ (v : Z) :
  0 <= v < 2 ^ 32 -> vlq_value (encodeVLQ v) = v.
Proof.
  intros Hv. unfold encodeVLQ.
  rewrite vlq_value_snoc, u8_last_byte, low7_idem.
  pose proof (shiftr7_le v ltac:(lia)).
  assert (0 <= Z.shiftr v 7 < 2 ^ 25).
  { rewrite Z.shiftr_div_pow2 by lia. split.
    - apply Z.div_pos; lia.
    - apply Z.div_lt_upper_bound; lia. }
  rewrite vlq_value_encodeVLQ_more by (simpl; lia).
  rewrite shl32_shiftr7 by lia.
  apply shift7_split. lia.
Qed.

Lemma readVariableLengthData_encodeVLQ (v : Z) (before rest : list byte) :
  0 <= v < 2 ^ 32 ->
  readVariableLengthData (mkStream before (encodeVLQ v ++ rest))
  = Ok (v, mkStream (rev (encodeVLQ v) ++ before) rest).
Proof.
  intros Hv.
  rewrite readVariableLengthData_run by apply is_vlq_encodeVLQ.
  now rewrite vlq_value_encodeVLQ.
Qed.

(** ** Single commands on a state with a known stream *)

#[local] Arguments u8 : simpl never.
#[local] Arguments isMSBHigh : simpl never.
#[local] Arguments shl32 : simpl never.
#[local] Arguments setTempo_mspm : simpl never.
#[local] Arguments encodeVLQ : simpl never.
#[local] Arguments Z.shiftr : simpl never.
#[local] Arguments Z.div : simpl never.

Lemma bind_ok {A B} (m : M A) (k : A -> M B) (st st' : State) (a : A) :
  m st = Ok (a, st') -> bind m k st = k a st'.
Proof. intros H. unfold bind. now rewrite H. Qed.

Lemma file_read_ok before b rest tc ps fl tn o :
  file_read (mkState (mkStream before (b :: rest)) tc ps fl tn o)
  = Ok (u8 b, mkState (mkStream (b :: before) rest) tc ps fl tn o).
Proof. reflexivity. Qed.

Lemma file_readVariableLengthData_ok bs before rest tc ps fl tn o :
  is_vlq bs = true ->
  file_readVariableLengthData
    (mkState (mkStream before (bs ++ rest)) tc ps fl tn o)
  = Ok (vlq_value bs, mkState (mkStream (rev bs ++ before) rest) tc ps fl tn o).
Proof.
  intros Hbs. unfold file_readVariableLengthData, on_file. cbn [file].
  now rewrite readVariableLengthData_run.
Qed.

Lemma readDefinedLengthData_loop_ok (payload : list byte) :
  forall value before rest,
    readDefinedLengthData_loop (length payload) value
                               (mkStream before (payload ++ rest))
    = Ok (value ++ payload, mkStream (rev payload ++ before) rest).
Proof.
  induction payload as [|b payload IH]; intros value before rest; simpl.
  - now rewrite app_nil_r.
  - unfold stream_read. simpl. rewrite IH. now rewrite <- !app_assoc.
Qed.

Lemma file_readDefinedLengthData_ok payload before rest tc ps fl tn o :
  file_readDefinedLengthData (payload_length payload)
    (mkState (mkStream before (payload ++ rest)) tc ps fl tn o)
  = Ok (payload, mkState (mkStream (rev payload ++ before) rest) tc ps fl tn o).
Proof.
  unfold file_readDefinedLengthData, on_file, readDefinedLengthData,
    payload_length.
  cbn [file]. rewrite Nat2Z.id, readDefinedLengthData_loop_ok. reflexivity.
Qed.

(** ** The vector of note vectors *)

Lemma push_back_at_extend (i : nat) (n : Note) :
  forall v, (i < length v)%nat -> push_back_at i n v = Some (extend_at i [n] v).
Proof.
  induction i as [|i IH]; intros [|notes v] Hi; simpl in *; try lia.
  - reflexivity.
  - rewrite IH by lia. reflexivity.
Qed.

Lemma extend_at_nil (i : nat) : forall v, extend_at i [] v = v.
Proof.
  induction i as [|i IH]; intros [|notes v]; simpl; try reflexivity.
  - now rewrite app_nil_r.
  - now rewrite IH.
Qed.

Lemma extend_at_app (i : nat) (ns ms : list Note) :
  forall v, extend_at i ms (extend_at i ns v) = extend_at i (ns ++ ms) v.
Proof.
  induction i as [|i IH]; intros [|notes v]; simpl; try reflexivity.
  - now rewrite app_assoc.
  - now rewrite IH.
Qed.

Lemma extend_at_length (i : nat) (ns : list Note) :
  forall v, length (extend_at i ns v) = length v.
Proof.
  induction i as [|i IH]; intros [|notes v]; simpl; auto.
Qed.

Lemma extend_at_last (v : list (list Note)) (ns : list Note) :
  extend_at (length v) ns (v ++ [[]]) = v ++ [ns].
Proof. induction v as [|x v IH]; simpl; [reflexivity | now rewrite IH]. Qed.

(** ** One event at a time *)

Lemma voice_family (s : Z) :
  0x80 <= s < 0xF0 ->
  Z.shiftr s 4 = 0x8 \/ Z.shiftr s 4 = 0x9 \/ Z.shiftr s 4 = 0xA
  \/ Z.shiftr s 4 = 0xB \/ Z.shiftr s 4 = 0xC \/ Z.shiftr s 4 = 0xD
  \/ Z.shiftr s 4 = 0xE.
Proof.
  intros Hs. rewrite Z.shiftr_div_pow2 by lia.
  assert (8 <= s / 2 ^ 4) by (apply Z.div_le_lower_bound; lia).
  assert (s / 2 ^ 4 < 15) by (apply Z.div_lt_upper_bound; lia).
  lia.
Qed.

Lemma meta_family (s : Z) : 0xF0 <= s < 256 -> Z.shiftr s 4 = 0xF.
Proof.
  intros Hs. rewrite Z.shiftr_div_pow2 by lia.
  assert (15 <= s / 2 ^ 4) by (apply Z.div_le_lower_bound; lia).
  assert (s / 2 ^ 4 < 16) by (apply Z.div_lt_upper_bound; lia).
  lia.
Qed.

(** A byte with bit 7 set is taken as the status. *)
Lemma resolve_status_explicit before b rest tc ps fl tn o :
  0x80 <= u8 b ->
  resolve_status (mkState (mkStream before (b :: rest)) tc ps fl tn o)
  = Ok (u8 b, mkState (mkStream (b :: before) rest) tc ps fl tn o).
Proof.
  intros Hb. unfold resolve_status.
  rewrite (bind_ok _ _ _ _ _ (file_read_ok _ _ _ _ _ _ _ _)).
  destruct (Z.ltb_spec (u8 b) 0x80); [lia | reflexivity].
Qed.

(** A byte below 0x80 is put back and [prevStatus] is the status: the state
    after the step is the state before it. *)
Lemma resolve_status_running before b rest tc ps fl tn o :
  u8 b < 0x80 ->
  resolve_status (mkState (mkStream before (b :: rest)) tc ps fl tn o)
  = Ok (ps, mkState (mkStream before (b :: rest)) tc ps fl tn o).
Proof.
  intros Hb. unfold resolve_status.
  rewrite (bind_ok _ _ _ _ _ (file_read_ok _ _ _ _ _ _ _ _)).
  destruct (Z.ltb_spec (u8 b) 0x80); [reflexivity | lia].
Qed.

Lemma dispatch_voice k deltaTime status data elided before rest tc ps tn o fl :
  0x80 <= u8 status < 0xF0 ->
  length data = voice_data_length (u8 status) ->
  (k < length tn)%nat ->
  dispatch k deltaTime (u8 status)
    (mkState (mkStream before (data ++ rest)) tc ps fl tn o)
  = Ok (tt, mkState (mkStream (rev data ++ before) rest) tc (u8 status) fl
                    (extend_at k (event_notes (Voice status data elided)) tn)
                    (o ++ event_reports deltaTime (Voice status data elided))).
Proof.
  intros Hs Hlen Hk.
  unfold dispatch, voice_data_length, event_notes, event_reports in *.
  destruct (voice_family _ Hs) as [F|[F|[F|[F|[F|[F|F]]]]]];
    rewrite F in *; cbn in Hlen |- *.
  all: destruct data as [|a [|b [|c data]]]; try discriminate Hlen.
  all: cbn.
  all: try (unfold trackNotes_push; cbn; rewrite push_back_at_extend by assumption; reflexivity).
  all: try (rewrite extend_at_nil; reflexivity).
Qed.

Lemma valid_delta_range (d : Z) : valid_delta d = true -> 0 <= d < 2 ^ 32.
Proof. unfold valid_delta. lia. Qed.

Lemma meta_switch_ok type payload before rest tc ps fl tn o :
  meta_payload_ok type payload = true ->
  meta_switch type (payload_length payload)
    (mkState (mkStream before (payload ++ rest)) tc ps fl tn o)
  = Ok (tt, mkState (mkStream (rev payload ++ before) rest) tc ps fl tn
                    (o ++ meta_reports type payload)).
Proof.
  intros Hok. unfold meta_switch, meta_payload_ok, meta_reports in *.
  destruct (type =? MetaEventType.sequenceNumber).
  { destruct payload as [|a [|b [|c p]]]; try discriminate Hok. reflexivity. }
  destruct (is_text_type type).
  { rewrite (bind_ok _ _ _ _ _
               (file_readDefinedLengthData_ok _ _ _ _ _ _ _ _)).
    reflexivity. }
  destruct (type =? MetaEventType.midiChannelPrefix).
  { destruct payload as [|a [|b p]]; try discriminate Hok. reflexivity. }
  destruct (type =? MetaEventType.endOfTrack); [discriminate Hok|].
  destruct (type =? MetaEventType.setTempo).
  { destruct payload as [|a [|b [|c [|d p]]]]; try discriminate Hok.
    cbn. unfold bind. cbn.
    destruct (setTempo_mspm (u8 a) (u8 b) (u8 c) =? 0); [discriminate Hok|].
    reflexivity. }
  destruct (type =? MetaEventType.smpteOffset).
  { destruct payload as [|a [|b [|c [|d [|e [|f p]]]]]]; try discriminate Hok.
    reflexivity. }
  destruct (type =? MetaEventType.timeSignature).
  { destruct payload as [|a [|b [|c [|d [|e p]]]]]; try discriminate Hok.
    reflexivity. }
  destruct (type =? MetaEventType.keySignature).
  { destruct payload as [|a [|b [|c p]]]; try discriminate Hok. reflexivity. }
  destruct (type =? MetaEventType.sequencerSpecific); [|discriminate Hok].
  rewrite (bind_ok _ _ _ _ _
             (file_readDefinedLengthData_ok _ _ _ _ _ _ _ _)).
  cbn. now rewrite app_nil_r.
Qed.

Lemma dispatch_meta k deltaTime type payload before rest tc ps fl tn o :
  wf_event ps (MetaEv type payload) = true ->
  dispatch k deltaTime 0xFF
    (mkState (mkStream before
                (type :: encodeVLQ (payload_length payload) ++ payload ++ rest))
             tc ps fl tn o)
  = Ok (tt, mkState
              (mkStream (rev payload
                           ++ rev (encodeVLQ (payload_length payload))
                           ++ type :: before) rest)
              tc 0xFF fl tn (o ++ meta_reports (u8 type) payload)).
Proof.
  intros Hwf. cbn [wf_event] in Hwf. apply andb_prop in Hwf as [Hok Hlen].
  apply valid_delta_range in Hlen.
  unfold dispatch. change (Z.shiftr 255 4) with 15. cbn.
  unfold case_metaEvent. cbn. unfold with_file. cbn.
  rewrite (bind_ok _ _ _ _ _
             (file_readVariableLengthData_ok _ _ _ _ _ _ _ _
                (is_vlq_encodeVLQ _))).
  rewrite vlq_value_encodeVLQ by assumption.
  now rewrite meta_switch_ok.
Qed.

Lemma dispatch_sysex k deltaTime status type payload before rest tc ps fl tn o :
  wf_event ps (SysexEv status type payload) = true ->
  dispatch k deltaTime (u8 status)
    (mkState (mkStream before
                (type :: encodeVLQ (payload_length payload) ++ payload ++ rest))
             tc ps fl tn o)
  = Ok (tt, mkState
              (mkStream (rev payload
                           ++ rev (encodeVLQ (payload_length payload))
                           ++ type :: before) rest)
              tc (u8 status) fl tn
              (o ++ event_reports deltaTime (SysexEv status type payload))).
Proof.
  intros Hwf. cbn [wf_event] in Hwf. apply andb_prop in Hwf as [Hst Hlen].
  apply valid_delta_range in Hlen.
  assert (Hrun : forall r,
    (type0 <- file_read ;;
     length <- file_readVariableLengthData ;;
     text <- file_readDefinedLengthData length ;;
     cout r)
      (mkState (mkStream before
                  (type :: encodeVLQ (payload_length payload) ++ payload ++ rest))
               tc (u8 status) fl tn o)
    = Ok (tt, mkState
                (mkStream (rev payload
                             ++ rev (encodeVLQ (payload_length payload))
                             ++ type :: before) rest)
                tc (u8 status) fl tn (o ++ [r]))).
  { intros r.
    rewrite (bind_ok _ _ _ _ _ (file_read_ok _ _ _ _ _ _ _ _)).
    rewrite (bind_ok _ _ _ _ _
               (file_readVariableLengthData_ok _ _ _ _ _ _ _ _
                  (is_vlq_encodeVLQ _))).
    rewrite vlq_value_encodeVLQ by assumption.
    rewrite (bind_ok _ _ _ _ _
               (file_readDefinedLengthData_ok _ _ _ _ _ _ _ _)).
    reflexivity. }
  unfold dispatch, event_reports.
  apply orb_prop in Hst as [E | E]; apply Z.eqb_eq in E; rewrite E in *;
    [change (Z.shiftr 240 4) with 15 | change (Z.shiftr 247 4) with 15]; cbn;
    unfold case_metaEvent; cbn; apply Hrun.
Qed.

Lemma event_loop_done fuel k f tc ps tn o :
  event_loop fuel k (mkState f tc ps true tn o)
  = Ok (tt, mkState f tc ps true tn o).
Proof. destruct fuel; reflexivity. Qed.

Lemma event_loop_step fuel k f tc ps tn o :
  event_loop (S fuel) k (mkState f tc ps false tn o)
  = (event_iteration k ;; event_loop fuel k) (mkState f tc ps false tn o).
Proof. reflexivity. Qed.

(** The end-of-track meta-event, after any delta-time. *)
Lemma event_iteration_end_of_track k ds before rest tc ps fl tn o :
  is_vlq ds = true ->
  event_iteration k
    (mkState (mkStream before (ds ++ xff :: x2f :: x00 :: rest)) tc ps fl tn o)
  = Ok (tt, mkState (mkStream (x00 :: x2f :: xff :: rev ds ++ before) rest)
                    tc 0xFF true tn (o ++ [REndOfTrack])).
Proof.
  intros Hds. unfold event_iteration.
  rewrite (bind_ok _ _ _ _ _ (file_readVariableLengthData_ok _ _ _ _ _ _ _ _ Hds)).
  rewrite (bind_ok _ _ _ _ _
             (resolve_status_explicit _ xff _ _ _ _ _ _ ltac:(vm_compute; discriminate))).
  reflexivity.
Qed.

(** One event of the grammar, read from a state in which it is well formed. *)
Lemma event_iteration_event k d e before rest tc ps fl tn o :
  valid_delta d = true ->
  wf_event ps e = true ->
  (k < length tn)%nat ->
  event_iteration k
    (mkState (mkStream before (timed_event_bytes (d, e) ++ rest)) tc ps fl tn o)
  = Ok (tt, mkState (mkStream (rev (timed_event_bytes (d, e)) ++ before) rest)
                    tc (event_status e) fl (extend_at k (event_notes e) tn)
                    (o ++ event_reports d e)).
Proof.
  intros Hd Hwf Hk. apply valid_delta_range in Hd.
  unfold event_iteration, timed_event_bytes. cbn [fst snd].
  rewrite <- app_assoc.
  rewrite (bind_ok _ _ _ _ _
             (file_readVariableLengthData_ok _ _ _ _ _ _ _ _
                (is_vlq_encodeVLQ _))).
  rewrite vlq_value_encodeVLQ by assumption.
  rewrite rev_app_distr, <- app_assoc.
  destruct e as [status data elided | type payload | status type payload].
  - (* channel events *)
    cbn [wf_event] in Hwf.
    apply andb_prop in Hwf as [Hwf Hrun].
    apply andb_prop in Hwf as [Hwf Hlen].
    apply andb_prop in Hwf as [Hlo Hhi].
    apply Nat.eqb_eq in Hlen.
    assert (Hs : 0x80 <= u8 status < 0xF0) by lia.
    cbn [event_bytes event_status].
    destruct elided.
    + apply andb_prop in Hrun as [Hps Hdata].
      apply Z.eqb_eq in Hps. subst ps.
      destruct data as [|a data]; [discriminate Hdata|].
      apply Z.ltb_lt in Hdata.
      cbn [app].
      rewrite (bind_ok _ _ _ _ _
                 (resolve_status_running _ _ _ _ _ _ _ _ Hdata)).
      change (a :: data ++ rest) with ((a :: data) ++ rest).
      rewrite (dispatch_voice _ _ _ _ true) by assumption.
      reflexivity.
    + cbn [app].
      rewrite (bind_ok _ _ _ _ _
                 (resolve_status_explicit _ _ _ _ _ _ _ _ (proj1 Hs))).
      rewrite (dispatch_voice _ _ _ _ false) by assumption.
      cbn [rev]. now rewrite <- !app_assoc.
  - (* meta-events *)
    cbn [event_bytes event_status event_notes event_reports app].
    rewrite extend_at_nil.
    rewrite (bind_ok _ _ _ _ _
               (resolve_status_explicit _ xff _ _ _ _ _ _
                  ltac:(vm_compute; discriminate))).
    change (u8 xff) with 255.
    rewrite <- app_assoc.
    rewrite (dispatch_meta _ _ _ _ _ _ _ _ _ _ _ Hwf).
    cbn [rev]. rewrite !rev_app_distr. now rewrite <- !app_assoc.
  - (* system exclusive *)
    pose proof Hwf as Hwf'.
    cbn [wf_event] in Hwf'. apply andb_prop in Hwf' as [Hst _].
    assert (Hs : 0x80 <= u8 status) by lia.
    cbn [event_bytes event_status event_notes app].
    rewrite extend_at_nil.
    rewrite (bind_ok _ _ _ _ _
               (resolve_status_explicit _ _ _ _ _ _ _ _ Hs)).
    rewrite <- app_assoc.
    rewrite (dispatch_sysex _ _ _ _ _ _ _ _ _ _ _ _ Hwf).
    cbn [rev]. rewrite !rev_app_distr. now rewrite <- !app_assoc.
Qed.

(** A whole track of the grammar: every event is decoded in order and the
    loop stops behind the end-of-track event. *)
Lemma event_loop_track (events : list (Z * Event)) :
  forall fuel k last_delta before rest tc ps tn o,
    wf_events ps events = true ->
    valid_delta last_delta = true ->
    (k < length tn)%nat ->
    (length events < fuel)%nat ->
    event_loop fuel k
      (mkState (mkStream before (track_bytes events last_delta ++ rest))
               tc ps false tn o)
    = Ok (tt, mkState
                (mkStream (rev (track_bytes events last_delta) ++ before) rest)
                tc 0xFF true (extend_at k (track_notes events) tn)
                (o ++ track_reports events ++ [REndOfTrack])).
Proof.
  induction events as [|[d e] events IH];
    intros fuel k last_delta before rest tc ps tn o Hwf Hlast Hk Hfuel.
  - destruct fuel as [|fuel]; [simpl in Hfuel; lia|].
    rewrite event_loop_step.
    unfold track_bytes, end_of_track_bytes. cbn [flat_map app].
    rewrite <- app_assoc. cbn [app].
    rewrite (bind_ok _ _ _ _ _
               (event_iteration_end_of_track _ _ _ _ _ _ _ _ _
                  (is_vlq_encodeVLQ _))).
    rewrite event_loop_done.
    cbn [track_notes track_reports flat_map app]. rewrite extend_at_nil.
    rewrite rev_app_distr. reflexivity.
  - destruct fuel as [|fuel]; [simpl in Hfuel; lia|].
    cbn [wf_events] in Hwf.
    apply andb_prop in Hwf as [Hwf Hrest].
    apply andb_prop in Hwf as [Hd He].
    rewrite event_loop_step.
    unfold track_bytes. cbn [flat_map]. rewrite <- !app_assoc.
    rewrite (bind_ok _ _ _ _ _
               (event_iteration_event _ _ _ _ _ _ _ _ _ _ Hd He Hk)).
    rewrite app_assoc. fold (track_bytes events last_delta).
    rewrite IH; try assumption.
    + unfold track_notes, track_reports. cbn [flat_map fst snd].
      rewrite extend_at_app.
      rewrite !rev_app_distr, <- !app_assoc. reflexivity.
    + now rewrite extend_at_length.
    + simpl in Hfuel. lia.
Qed.

(** ** What every command leaves alone *)

Lemma steady_refl st : steady st st.
Proof. split; [reflexivity | apply Nat.le_refl]. Qed.

Lemma steady_trans st1 st2 st3 : steady st1 st2 -> steady st2 st3 -> steady st1 st3.
Proof. unfold steady. intros [H1 L1] [H2 L2]. split; [congruence | lia]. Qed.

Lemma calm_refl st : calm st st.
Proof. split; [apply steady_refl | reflexivity]. Qed.

Lemma calm_trans st1 st2 st3 : calm st1 st2 -> calm st2 st3 -> calm st1 st3.
Proof.
  intros [S1 F1] [S2 F2]. split; [eapply steady_trans; eauto | congruence].
Qed.

Lemma calm_steady st st' : calm st st' -> steady st st'.
Proof. now intros [H _]. Qed.

Lemma input_fault_not_fuel e : input_fault e -> not_fuel e.
Proof. intros [-> | ->]; discriminate. Qed.

Section Respects.
Context (R : State -> State -> Prop) (E : Stuck -> Prop).
Hypothesis R_refl : forall st, R st st.
Hypothesis R_trans : forall st1 st2 st3, R st1 st2 -> R st2 st3 -> R st1 st3.

Lemma respects_ret {A} (a : A) : respects R E (ret a).
Proof. intros st. apply R_refl. Qed.

Lemma respects_bind {A B} (m : M A) (k : A -> M B) :
  respects R E m -> (forall a, respects R E (k a)) -> respects R E (bind m k).
Proof.
  intros Hm Hk st. unfold bind. specialize (Hm st).
  destruct (m st) as [[a st1]|e]; [|assumption].
  specialize (Hk a st1). destruct (k a st1) as [[b st2]|e]; [|assumption].
  eapply R_trans; eassumption.
Qed.
End Respects.

Lemma respects_weaken {A} (R R' : State -> State -> Prop) (E E' : Stuck -> Prop)
      (m : M A) :
  (forall st st', R st st' -> R' st st') -> (forall e, E e -> E' e) ->
  respects R E m -> respects R' E' m.
Proof.
  intros HR HE Hm st. specialize (Hm st).
  destruct (m st) as [[a st1]|e]; auto.
Qed.

Lemma stream_read_shorter s :
  match stream_read s with
  | Ok (_, s') => S (length (pending s')) = length (pending s)
  | Fail e => e = EndOfFile
  end.
Proof. unfold stream_read. destruct (pending s); reflexivity. Qed.

Lemma readVariableLengthData_loop_shorter rest :
  forall result before,
    match readVariableLengthData_loop result before rest with
    | Ok (_, s') => (length (pending s') < length rest)%nat
    | Fail e => e = EndOfFile
    end.
Proof.
  induction rest as [|temp rest IH]; intros result before; simpl.
  - reflexivity.
  - destruct (isMSBHigh (u8 temp)).
    + match goal with
      | |- context [readVariableLengthData_loop ?r ?b rest] =>
          specialize (IH r b); destruct (readVariableLengthData_loop r b rest)
            as [[v s']|e]
      end; [lia | assumption].
    + simpl. lia.
Qed.

Lemma readVariableLengthData_shorter s :
  match readVariableLengthData s with
  | Ok (_, s') => (length (pending s') < length (pending s))%nat
  | Fail e => e = EndOfFile
  end.
Proof.
  unfold readVariableLengthData, stream_read.
  destruct s as [before [|temp rest]]; simpl; [reflexivity|].
  destruct (isMSBHigh (u8 temp)); [|simpl; lia].
  pose proof (readVariableLengthData_loop_shorter rest (Z.land (u8 temp) 127)
                                                  (temp :: before)) as H.
  destruct (readVariableLengthData_loop _ _ rest) as [[v s']|e];
    [lia | assumption].
Qed.

Lemma readDefinedLengthData_loop_shorter n :
  forall value s,
    match readDefinedLengthData_loop n value s with
    | Ok (_, s') => (length (pending s') <= length (pending s))%nat
    | Fail e => e = EndOfFile
    end.
Proof.
  induction n as [|n IH]; intros value s; simpl; [lia|].
  pose proof (stream_read_shorter s) as Hr.
  destruct (stream_read s) as [[temp s1]|e]; [|assumption].
  specialize (IH (value ++ [temp]) s1).
  destruct (readDefinedLengthData_loop n _ s1) as [[v s2]|e];
    [lia | assumption].
Qed.

Lemma respects_on_file {A} (h : ifstream -> Res (A * ifstream)) :
  (forall s, match h s with
             | Ok (_, s') => (length (pending s') <= length (pending s))%nat
             | Fail e => e = EndOfFile
             end) ->
  respects calm input_fault (on_file h).
Proof.
  intros Hh st. unfold on_file. specialize (Hh (file st)).
  destruct (h (file st)) as [[a s']|e].
  - repeat split. exact Hh.
  - left. exact Hh.
Qed.

Lemma respects_file_read : respects calm input_fault file_read.
Proof.
  apply respects_on_file. intros s. pose proof (stream_read_shorter s) as H.
  destruct (stream_read s) as [[b s']|e]; [lia | assumption].
Qed.

Lemma respects_file_readVariableLengthData :
  respects calm input_fault file_readVariableLengthData.
Proof.
  apply respects_on_file. intros s.
  pose proof (readVariableLengthData_shorter s) as H.
  destruct (readVariableLengthData s) as [[b s']|e]; [lia | assumption].
Qed.

Lemma respects_file_readDefinedLengthData length :
  respects calm input_fault (file_readDefinedLengthData length).
Proof.
  apply respects_on_file. intros s. apply readDefinedLengthData_loop_shorter.
Qed.

Lemma respects_cout r : respects calm input_fault (cout r).
Proof. intros st. repeat split. apply Nat.le_refl. Qed.

Lemma respects_set_reachedEndOfTrack b :
  respects steady input_fault (set_reachedEndOfTrack b).
Proof. intros st. split; [reflexivity | apply Nat.le_refl]. Qed.

Lemma respects_stuck_DivideByZero {A} :
  respects steady input_fault (@stuck A DivideByZero).
Proof. intros st. now right. Qed.

Lemma respects_trackNotes_push k n :
  respects calm not_fuel (trackNotes_push k n).
Proof.
  intros st. unfold trackNotes_push.
  destruct (push_back_at k n (trackNotes st)).
  - repeat split. apply Nat.le_refl.
  - discriminate.
Qed.

Lemma respects_resolve_status : respects calm input_fault resolve_status.
Proof.
  intros [[before [|b rest]] tc ps fl tn o]; [now left|].
  unfold resolve_status.
  rewrite (bind_ok _ _ _ _ _ (file_read_ok _ _ _ _ _ _ _ _)).
  destruct (u8 b <? 0x80); repeat split; cbn; lia.
Qed.

Create HintDb midi discriminated.

#[local] Hint Resolve steady_refl steady_trans calm_refl calm_trans
  respects_file_read respects_file_readVariableLengthData
  respects_file_readDefinedLengthData respects_cout
  respects_set_reachedEndOfTrack respects_stuck_DivideByZero
  respects_trackNotes_push respects_resolve_status : midi.

(** Breaks a command into its binds and branches and closes every piece
    with the lemmas on the single commands. *)
Ltac respects_steps :=
  repeat first
    [ apply respects_bind;
      [first [exact steady_trans | exact calm_trans] | | intros ?]
    | apply respects_ret; first [exact steady_refl | exact calm_refl]
    | match goal with
      | |- respects _ _ (if ?c then _ else _) => destruct c
      end
    | solve [auto with midi]
    | solve [eapply respects_weaken;
             [ | | auto with midi];
             [ first [exact calm_steady | intros ? ? H; exact H]
             | first [exact input_fault_not_fuel | intros ? H; exact H] ]] ].

Lemma respects_meta_switch type length :
  respects steady input_fault (meta_switch type length).
Proof. unfold meta_switch. respects_steps. Qed.

#[local] Hint Resolve respects_meta_switch : midi.

Lemma after_set_prevStatus {A} (status : Z) (m : M A) (E : Stuck -> Prop) :
  respects calm E m ->
  forall st,
    match (set_prevStatus status ;; m) st with
    | Ok (_, st') =>
        prevStatus st' = status
        /\ (bytes_pending st' <= bytes_pending st)%nat
        /\ reachedEndOfTrack st' = reachedEndOfTrack st
    | Fail e => E e
    end.
Proof.
  intros Hm [f tc ps fl tn o]. unfold bind. cbn.
  specialize (Hm (mkState f tc status fl tn o)).
  destruct (m _) as [[a st']|e]; [|assumption].
  destruct Hm as [[Hp Hb] Hf]. auto.
Qed.

(** The 0xF branch: [prevStatus] ends up as the status byte, whichever of the
    four sub-branches runs; only the 0xFF sub-branch can end the track. *)
Lemma case_metaEvent_effect (status : Z) (st : State) :
  match case_metaEvent status st with
  | Ok (_, st') =>
      prevStatus st' = status
      /\ (bytes_pending st' <= bytes_pending st)%nat
      /\ (status <> 0xFF -> reachedEndOfTrack st' = reachedEndOfTrack st)
  | Fail e => input_fault e
  end.
Proof.
  unfold case_metaEvent.
  destruct (Z.eqb_spec status 0xFF) as [HFF | HFF].
  - destruct st as [f tc ps fl tn o]. unfold bind at 1. cbn.
    assert (H : respects steady input_fault
                  (type <- file_read ;;
                   length <- file_readVariableLengthData ;;
                   meta_switch type length)) by respects_steps.
    specialize (H (mkState f tc status fl tn o)).
    destruct (bind _ _ _) as [[a st']|e]; [|assumption].
    destruct H as [Hp Hb]. cbn in Hp. repeat split; auto. contradiction.
  - match goal with
    | |- match (set_prevStatus status ;; ?m) st with _ => _ end =>
        assert (H : respects calm input_fault m)
          by (repeat match goal with
                     | |- respects _ _ (if ?c then _ else _) => destruct c
                     end; respects_steps);
        pose proof (after_set_prevStatus status m input_fault H st) as H'
    end.
    destruct (bind _ _ st) as [[a st']|e]; [|assumption].
    destruct H' as (Hp & Hb & Hf). auto.
Qed.

Lemma dispatch_metaEvent k deltaTime status :
  Z.shiftr status 4 = 0xF ->
  dispatch k deltaTime status = case_metaEvent status.
Proof. intros H. unfold dispatch. rewrite H. reflexivity. Qed.

Lemma dispatch_effect k deltaTime status st :
  match dispatch k deltaTime status st with
  | Ok (_, st') =>
      (bytes_pending st' <= bytes_pending st)%nat
      /\ (reachedEndOfTrack st' = reachedEndOfTrack st \/ prevStatus st' = 0xFF)
  | Fail e => not_fuel e
  end.
Proof.
  assert (Hv : forall (m : M unit),
             respects calm not_fuel m ->
             match (set_prevStatus status ;; m) st with
             | Ok (_, st') =>
                 (bytes_pending st' <= bytes_pending st)%nat
                 /\ (reachedEndOfTrack st' = reachedEndOfTrack st
                     \/ prevStatus st' = 0xFF)
             | Fail e => not_fuel e
             end).
  { intros m Hm.
    pose proof (after_set_prevStatus status m not_fuel Hm st) as H.
    destruct (bind _ _ st) as [[u st']|e]; [|assumption].
    destruct H as (_ & Hb & Hf). auto. }
  unfold dispatch.
  repeat match goal with
         | |- match (if ?c then _ else _) st with _ => _ end =>
             destruct c eqn:?
         end;
    try solve [apply Hv; respects_steps].
  - pose proof (case_metaEvent_effect status st) as H.
    destruct (case_metaEvent status st) as [[u st']|e].
    + destruct H as (Hp & Hb & Hf). split; [assumption|].
      destruct (Z.eq_dec status 0xFF); [right; congruence | left; auto].
    + now apply input_fault_not_fuel.
  - cbn. auto.
Qed.

(** Every pass of the loop moves the cursor forward, and the flag that ends
    the track is only raised in a pass that leaves 0xFF in [prevStatus]. *)
Lemma event_iteration_effect k st :
  match event_iteration k st with
  | Ok (_, st') =>
      (bytes_pending st' < bytes_pending st)%nat
      /\ (reachedEndOfTrack st' = reachedEndOfTrack st \/ prevStatus st' = 0xFF)
  | Fail e => not_fuel e
  end.
Proof.
  unfold event_iteration.
  unfold bind at 1. unfold file_readVariableLengthData at 1, on_file.
  pose proof (readVariableLengthData_shorter (file st)) as Hd.
  destruct (readVariableLengthData (file st)) as [[deltaTime s1]|e];
    [|subst e; discriminate].
  unfold bind.
  pose proof (respects_resolve_status (with_file s1 st)) as Hr.
  destruct (resolve_status (with_file s1 st)) as [[status st2]|e];
    [|now apply input_fault_not_fuel].
  pose proof (dispatch_effect k deltaTime status st2) as Hp.
  destruct (dispatch k deltaTime status st2) as [[u st3]|e]; [|assumption].
  destruct Hr as [[Hps Hb] Hf]. destruct Hp as [Hb' Hf'].
  unfold bytes_pending in *. cbn in Hb, Hf. split; [lia|].
  destruct Hf' as [Hf' | Hf']; [left; congruence | now right].
Qed.

Lemma event_loop_stop fuel k st :
  reachedEndOfTrack st = true -> event_loop fuel k st = Ok (tt, st).
Proof. intros H. destruct fuel; simpl; now rewrite H. Qed.

(** The loop ends only with the flag raised and 0xFF in [prevStatus], and a
    [fuel] above the number of bytes left is never used up. *)
Lemma event_loop_effect fuel k :
  forall st,
    match event_loop fuel k st with
    | Ok (_, st') =>
        reachedEndOfTrack st' = true
        /\ (reachedEndOfTrack st = false -> prevStatus st' = 0xFF)
    | Fail e => (bytes_pending st < fuel)%nat -> not_fuel e
    end.
Proof.
  induction fuel as [|fuel IH]; intros st.
  - simpl. destruct (reachedEndOfTrack st) eqn:Hfl.
    + split; [assumption | discriminate].
    + lia.
  - cbn [event_loop]. destruct (reachedEndOfTrack st) eqn:Hfl.
    + split; [assumption | discriminate].
    + unfold bind.
      pose proof (event_iteration_effect k st) as Hi.
      destruct (event_iteration k st) as [[u st1]|e]; [|auto].
      destruct Hi as [Hb Hf]. specialize (IH st1).
      destruct (reachedEndOfTrack st1) eqn:Hfl1.
      * rewrite event_loop_stop in * by assumption.
        split; [assumption|]. intros _.
        destruct Hf as [Hf | Hf]; [congruence | assumption].
      * destruct (event_loop fuel k st1) as [[u' st']|e].
        -- destruct IH as [H1 H2]. auto.
        -- intros Hlt. apply IH. lia.
Qed.

Lemma read_track_chunk_shorter s :
  match read_track_chunk s with
  | Ok (_, s') => (length (pending s') <= length (pending s))%nat
  | Fail e => e = EndOfFile
  end.
Proof.
  unfold read_track_chunk.
  pose proof (readDefinedLengthData_loop_shorter 8 [] s) as H.
  destruct (readDefinedLengthData_loop 8 [] s) as [[v s']|e]; [|assumption].
  do 9 (destruct v as [|? v]; try reflexivity). assumption.
Qed.

(** The start of a track clears the flag and leaves [prevStatus] alone. *)
Lemma track_begin_effect k st :
  match track_begin k st with
  | Ok (_, st') =>
      reachedEndOfTrack st' = false
      /\ prevStatus st' = prevStatus st
      /\ trackNotes st' = trackNotes st ++ [[]]
  | Fail e => e = EndOfFile
  end.
Proof.
  destruct st as [f tc ps fl tn o].
  unfold track_begin, bind. cbn. unfold on_file. cbn.
  pose proof (read_track_chunk_shorter f) as H.
  destruct (read_track_chunk f) as [[t f']|e]; [cbn; auto | assumption].
Qed.

(** A track that is decoded to its end leaves 0xFF in [prevStatus]; the fuel
    that [one_track] gives the loop is never used up. *)
Lemma one_track_effect k st :
  match one_track k st with
  | Ok (_, st') =>
      reachedEndOfTrack st' = true /\ prevStatus st' = 0xFF
  | Fail e => not_fuel e
  end.
Proof.
  unfold one_track. unfold bind at 1.
  pose proof (track_begin_effect k st) as Hb.
  destruct (track_begin k st) as [[u st1]|e]; [|subst e; discriminate].
  destruct Hb as (Hfl & Hps & Htn).
  unfold bind, bytes_left.
  pose proof (event_loop_effect (S (length (pending (file st1)))) k st1) as H.
  destruct (event_loop _ k st1) as [[u' st']|e].
  - destruct H as [H1 H2]. auto.
  - apply H. unfold bytes_pending. lia.
Qed.

(** ** Whole tracks and whole files *)

Lemma read_track_chunk_ok head before rest :
  length head = 8%nat ->
  read_track_chunk (mkStream before (head ++ rest))
  = Ok (track_chunk_of head, mkStream (rev head ++ before) rest).
Proof.
  intros H. do 9 (destruct head as [|? head]; try discriminate H).
  cbn. reflexivity.
Qed.

Lemma acquireHeaderData_ok head before rest :
  length head = 14%nat ->
  exists h,
    acquireHeaderData (mkStream before (head ++ rest))
    = Ok (h, mkStream (rev head ++ before) rest)
    /\ h_ntrks h = header_ntrks head.
Proof.
  intros H. do 15 (destruct head as [|? head]; try discriminate H).
  eexists. split; cbn; reflexivity.
Qed.

Lemma encodeVLQ_nonempty v : (1 <= length (encodeVLQ v))%nat.
Proof. unfold encodeVLQ. rewrite length_app. cbn [length]. lia. Qed.

Lemma events_count_le (events : list (Z * Event)) :
  (length events <= length (flat_map timed_event_bytes events))%nat.
Proof.
  induction events as [|[d e] events IH]; cbn [flat_map length]; [lia|].
  unfold timed_event_bytes at 1. rewrite !length_app.
  pose proof (encodeVLQ_nonempty d). cbn [fst snd]. lia.
Qed.

(** A track that is well formed from status 0 starts with an explicit status
    byte, so it is well formed whatever [prevStatus] holds. *)
Lemma wf_events_any_prev events :
  wf_events 0 events = true -> forall ps, wf_events ps events = true.
Proof.
  destruct events as [|[d e] events]; [reflexivity|].
  intros H ps. cbn [wf_events] in *.
  apply andb_prop in H as [H Hrest]. apply andb_prop in H as [Hd He].
  rewrite Hd, Hrest, andb_true_r. cbn [andb].
  destruct e as [status data [|] | |]; try exact He.
  cbn [wf_event] in He. exfalso.
  apply andb_prop in He as [He Hrun]. apply andb_prop in Hrun as [Hps _].
  lia.
Qed.

Lemma track_begin_ok k head before rest tc ps fl tn o :
  length head = 8%nat ->
  track_begin k (mkState (mkStream before (head ++ rest)) tc ps fl tn o)
  = Ok (tt, mkState (mkStream (rev head ++ before) rest) (track_chunk_of head)
                    ps false (tn ++ [[]]) (o ++ [RTrackNumber k])).
Proof.
  intros H. unfold track_begin, bind. cbn. unfold on_file. cbn.
  now rewrite read_track_chunk_ok.
Qed.

Lemma one_track_chunk t before rest tc ps fl tn o :
  wf_chunk t = true ->
  one_track (length tn)
    (mkState (mkStream before (chunk_bytes t ++ rest)) tc ps fl tn o)
  = Ok (tt, mkState (mkStream (rev (chunk_bytes t) ++ before) rest)
                    (track_chunk_of (chunk_head t)) 0xFF true
                    (tn ++ [track_notes (chunk_events t)])
                    (o ++ RTrackNumber (length tn)
                       :: track_reports (chunk_events t) ++ [REndOfTrack])).
Proof.
  intros Hwf. unfold wf_chunk in Hwf.
  apply andb_prop in Hwf as [Hwf Hlast]. apply andb_prop in Hwf as [Hhead Hev].
  apply Nat.eqb_eq in Hhead.
  destruct t as [head events last_delta]. cbn [chunk_head chunk_events
    chunk_last_delta] in *.
  unfold chunk_bytes. cbn [chunk_head chunk_events chunk_last_delta].
  rewrite <- app_assoc.
  unfold one_track.
  rewrite (bind_ok _ _ _ _ _ (track_begin_ok _ _ _ _ _ _ _ _ _ Hhead)).
  unfold bind at 1. unfold bytes_left. cbn [file pending].
  rewrite event_loop_track; try assumption.
  - rewrite extend_at_last, rev_app_distr, <- !app_assoc. reflexivity.
  - now apply wf_events_any_prev.
  - rewrite length_app. cbn [length]. lia.
  - unfold track_bytes. rewrite !length_app.
    pose proof (events_count_le events). lia.
Qed.

Lemma track_loop_chunks (tracks : list TrackChunk) :
  forall before rest tc ps fl tn o,
    forallb wf_chunk tracks = true ->
    exists tc' ps' fl',
      track_loop (length tracks) (length tn)
        (mkState (mkStream before (flat_map chunk_bytes tracks ++ rest))
                 tc ps fl tn o)
      = Ok (tt, mkState
                  (mkStream (rev (flat_map chunk_bytes tracks) ++ before) rest)
                  tc' ps' fl'
                  (tn ++ map (fun t => track_notes (chunk_events t)) tracks)
                  (o ++ chunks_reports (length tn) tracks)).
Proof.
  induction tracks as [|t tracks IH]; intros before rest tc ps fl tn o Hwf.
  - exists tc, ps, fl. cbn. now rewrite !app_nil_r.
  - cbn [forallb] in Hwf. apply andb_prop in Hwf as [Ht Hwf].
    cbn [length track_loop flat_map]. rewrite <- app_assoc.
    rewrite (bind_ok _ _ _ _ _ (one_track_chunk _ _ _ _ _ _ _ _ Ht)).
    match goal with
    | |- context [track_loop _ _ (mkState (mkStream ?b _) ?c ?p ?f ?n ?r)] =>
        destruct (IH b rest c p f n r Hwf) as (tc' & ps' & fl' & Hrun)
    end.
    rewrite length_app in Hrun. cbn [length] in Hrun.
    rewrite Nat.add_1_r in Hrun.
    exists tc', ps', fl'. rewrite Hrun. cbn [map chunks_reports].
    rewrite rev_app_distr.
    repeat first [rewrite <- app_assoc | progress cbn [app]]. reflexivity.
Qed.

Lemma track_notes_by_event (events : list (Z * Event)) :
  forall ps,
    wf_events ps events = true ->
    track_notes events = map note_of (filter is_note_event (map snd events)).
Proof.
  induction events as [|[d e] events IH]; intros ps Hwf; [reflexivity|].
  cbn [wf_events] in Hwf.
  apply andb_prop in Hwf as [Hwf Hrest]. apply andb_prop in Hwf as [_ He].
  unfold track_notes in *. cbn [flat_map map filter fst snd].
  rewrite (IH _ Hrest).
  destruct e as [status data elided | type payload | status type payload];
    try reflexivity.
  cbn [wf_event] in He.
  apply andb_prop in He as [He _]. apply andb_prop in He as [_ Hlen].
  apply Nat.eqb_eq in Hlen.
  destruct data as [|n data].
  { unfold voice_data_length in Hlen.
    destruct (_ || _) in Hlen; discriminate Hlen. }
  cbn [event_notes is_note_event note_of].
  destruct (Z.shiftr (u8 status) 4 =? EventType.noteOff) eqn:Eoff.
  - apply Z.eqb_eq in Eoff. cbn [orb map app]. cbn [note_of].
    rewrite Eoff. reflexivity.
  - destruct (Z.shiftr (u8 status) 4 =? EventType.noteOn) eqn:Eon;
      cbn [orb map app]; [cbn [note_of]; rewrite Eon|]; reflexivity.
Qed.

Lemma doWork_chunks head tracks rest :
  length head = 14%nat ->
  Z.to_nat (header_ntrks head) = length tracks ->
  forallb wf_chunk tracks = true ->
  exists st,
    doWork (head ++ flat_map chunk_bytes tracks ++ rest) = Ok st
    /\ getTrackNotes st = map (fun t => track_notes (chunk_events t)) tracks
    /\ out st = RParserBanner (header_ntrks head)
                  :: chunks_reports 0 tracks ++ [RAllTracksProcessed]
    /\ pending (file st) = rest.
Proof.
  intros Hhead Hn Hwf. unfold doWork, open.
  destruct (acquireHeaderData_ok head [] (flat_map chunk_bytes tracks ++ rest)
                                 Hhead) as (h & Hh & Hntrks).
  rewrite Hh, Hntrks, Hn.
  unfold bind at 1. cbn [cout file track_chunk prevStatus reachedEndOfTrack
                          trackNotes out app].
  destruct (track_loop_chunks tracks (rev head ++ []) rest (mkTrack 0 0) 0
              false [] [RParserBanner (header_ntrks head)] Hwf)
    as (tc' & ps' & fl' & Hrun).
  cbn [length] in Hrun.
  rewrite (bind_ok _ _ _ _ _ Hrun).
  eexists. split; [reflexivity|]. cbn. repeat split.
Qed.

(** ** No stop for lack of fuel *)

Lemma track_loop_effect count :
  forall k st,
    match track_loop count k st with
    | Ok _ => True
    | Fail e => not_fuel e
    end.
Proof.
  induction count as [|count IH]; intros k st; [exact I|].
  cbn [track_loop]. unfold bind.
  pose proof (one_track_effect k st) as H.
  destruct (one_track k st) as [[u st1]|e]; [apply IH | assumption].
Qed.

(** The bounds given to the loops of the embedding are never reached: when
    [doWork] stops, it is on the bytes of the file. *)
Lemma doWork_never_out_of_fuel (bytes : list byte) :
  doWork bytes <> Fail OutOfFuel.
Proof.
  unfold doWork.
  destruct (acquireHeaderData (open bytes)) as [[h f]|e] eqn:Hh.
  - unfold bind at 1. cbn [cout]. unfold bind.
    match goal with
    | |- context [track_loop ?n ?k ?st] =>
        pose proof (track_loop_effect n k st) as H;
        destruct (track_loop n k st) as [[u st1]|e]
    end; [discriminate|].
    intros Heq. inversion Heq. subst. now apply H.
  - unfold acquireHeaderData in Hh.
    pose proof (readDefinedLengthData_loop_shorter 14 [] (open bytes)) as H.
    destruct (readDefinedLengthData_loop 14 [] (open bytes)) as [[v s']|e'].
    + do 15 (destruct v as [|? v]; try (inversion Hh; discriminate)).
    + inversion Hh. subst. discriminate.
Qed.

(** ** Meta-events without a [case], and samples *)

(** A meta-event type outside the enumeration reaches no [case]. *)
Lemma meta_switch_other_type type length st :
  is_interpreted_type type = false ->
  meta_switch type length st = Ok (tt, st).
Proof.
  unfold is_interpreted_type, meta_switch. intros H.
  repeat (apply orb_false_elim in H as [H ?]).
  repeat match goal with
         | E : ?c = false |- context [if ?c then _ else _] => rewrite E
         end.
  reflexivity.
Qed.

(** For such a type the pass reads the type and the length and stops there,
    in front of the payload. *)
Lemma event_iteration_other_meta k ds type ls before rest tc ps fl tn o :
  is_vlq ds = true ->
  is_vlq ls = true ->
  is_interpreted_type (u8 type) = false ->
  event_iteration k
    (mkState (mkStream before (ds ++ xff :: type :: ls ++ rest)) tc ps fl tn o)
  = Ok (tt, mkState (mkStream (rev ls ++ type :: xff :: rev ds ++ before) rest)
                    tc 0xFF fl tn o).
Proof.
  intros Hds Hls Htype. unfold event_iteration.
  rewrite (bind_ok _ _ _ _ _
             (file_readVariableLengthData_ok _ _ _ _ _ _ _ _ Hds)).
  rewrite (bind_ok _ _ _ _ _
             (resolve_status_explicit _ xff _ _ _ _ _ _
                ltac:(vm_compute; discriminate))).
  change (u8 xff) with 255.
  unfold dispatch. change (Z.shiftr 255 4) with 15. cbn.
  unfold case_metaEvent. cbn. unfold with_file. cbn.
  rewrite (bind_ok _ _ _ _ _
             (file_readVariableLengthData_ok _ _ _ _ _ _ _ _ Hls)).
  now apply meta_switch_other_type.
Qed.

Example encodeVLQ_samples :
  encodeVLQ 0 = [x00]
  /\ encodeVLQ 0x7F = [x7f]
  /\ encodeVLQ 0x80 = [x81; x00]
  /\ encodeVLQ 0x3FFF = [xff; x7f]
  /\ encodeVLQ 0x4000 = [x81; x80; x00]
  /\ encodeVLQ 0x0FFFFFFF = [xff; xff; xff; x7f].
Proof. repeat split. Qed.

Example header_ntrks_sample : header_ntrks (sample_header x02) = 2.
Proof. reflexivity. Qed.

(** * The claims *)

(** ** C1: set tempo *)

(** C1.  The set-tempo case does not combine the three payload bytes: line 385
    puts the first byte where the third belongs.  For the payload
    07 A1 20 (500000 microseconds per quarter note) the decoder prints
    mspm = 499975 (and, by the rounding of the division, bpm = 120); the value
    printed never depends on the third byte. *)
Theorem C1_set_tempo_ignores_third_byte :
  event_iteration 0
    (first_track_state [x00; xff; x51; x03; x07; xa1; x20])
  = Ok (tt, mkState (mkStream [x20; xa1; x07; x03; x51; xff; x00] [])
                    (mkTrack 0 0) 0xFF false [[]] [RSetTempo 499975 120])
  /\ Z.lor (Z.lor (Z.shiftl 0x07 16) (Z.shiftl 0xA1 8)) 0x20 = 500000
  /\ (forall byte0 byte1 byte2 byte2',
        setTempo_mspm byte0 byte1 byte2 = setTempo_mspm byte0 byte1 byte2').
Proof.
  split; [vm_compute; reflexivity|].
  split; [vm_compute; reflexivity|].
  reflexivity.
Qed.

(** ** C2: meta-events of a type outside the enumeration *)

(** C2.  For a meta-event of type 0x60 with declared length 5 the decoder
    reads the type and the length and nothing else: the cursor is at offset 4,
    on the first payload byte, not at offset 9 where the next delta-time
    lies. *)
Theorem C2_unknown_meta_payload_left_unread :
  exists st,
    event_iteration 0
      (first_track_state
         [x00; xff; x60; x05; x01; x02; x03; x04; x05; x00; xff; x2f; x00])
    = Ok (tt, st)
    /\ tellg (file st) = 4%nat
    /\ pending (file st) = [x01; x02; x03; x04; x05; x00; xff; x2f; x00]
    /\ out st = [].
Proof.
  eexists. split; [vm_compute; reflexivity|]. repeat split.
Qed.

(** ** C3: the notes of a track *)

(** C3.  The notes returned for a track are not always the noteOff and
    noteOn events of its byte stream.  A track whose only event is a
    meta-event of type 0x60 with the payload 00 90 3C 40 holds no note event,
    and [getTrackNotes] returns the note 60 for it: the payload is left unread
    (C2) and is decoded as a noteOn.  A track with the meta-event FF 60 03 00
    FF 01 followed by the noteOn 90 3C 40 holds one note event, and
    [getTrackNotes] returns none: the payload is decoded as a text event that
    takes the bytes of the noteOn as its text. *)
Theorem C3_notes_differ_after_unhandled_meta :
  chunk_bytes stray_note_chunk
  = sample_chunk_head x0c
      ++ [x00; xff; x60; x04; x00; x90; x3c; x40; x00; xff; x2f; x00]
  /\ map note_of
         (filter is_note_event (map snd (chunk_events stray_note_chunk)))
     = []
  /\ (exists st,
         doWork (sample_header x01 ++ chunk_bytes stray_note_chunk) = Ok st
         /\ getTrackNotes st = [[mkNote 60 true]]
         /\ pending (file st) = [])
  /\ chunk_bytes lost_note_chunk
     = sample_chunk_head x0f
         ++ [x00; xff; x60; x03; x00; xff; x01; x03; x90; x3c; x40;
             x00; xff; x2f; x00]
  /\ map note_of
         (filter is_note_event (map snd (chunk_events lost_note_chunk)))
     = [mkNote 60 true]
  /\ (exists st,
         doWork (sample_header x01 ++ chunk_bytes lost_note_chunk) = Ok st
         /\ getTrackNotes st = [[]]
         /\ out st = [RParserBanner 1; RTrackNumber 0;
                      RText 1 [x90; x3c; x40]; REndOfTrack;
                      RAllTracksProcessed]).
Proof.
  split; [vm_compute; reflexivity|].
  split; [vm_compute; reflexivity|].
  split; [eexists; split; [vm_compute; reflexivity | split; reflexivity]|].
  split; [vm_compute; reflexivity|].
  split; [vm_compute; reflexivity|].
  eexists. split; [vm_compute; reflexivity | split; reflexivity].
Qed.

(** ** C4: running status *)

(** C4.  A candidate status byte below 0x80 is put back and [prevStatus] is
    the status of the event: after the step the stream and all variables are
    as before it, and the status handed to the switch is [prevStatus].  On the
    bytes 90 3C 40, then 3E 50 with no status byte of its own, the decoder
    prints two noteOn lines, for the notes 60 and 62, and the second is read
    under the status 0x90. *)
Theorem C4_running_status :
  (forall before b rest tc ps fl tn o,
      u8 b < 0x80 ->
      resolve_status (mkState (mkStream before (b :: rest)) tc ps fl tn o)
      = Ok (ps, mkState (mkStream before (b :: rest)) tc ps fl tn o))
  /\ event_iteration 0
       (first_track_state [x00; x90; x3c; x40; x00; x3e; x50; x00; xff; x2f; x00])
     = Ok (tt, mkState (mkStream [x40; x3c; x90; x00]
                                 [x00; x3e; x50; x00; xff; x2f; x00])
                       (mkTrack 0 0) 0x90 false [[mkNote 60 true]]
                       [RNoteOn 60 64 0])
  /\ (deltaTime <- file_readVariableLengthData ;; resolve_status)
       (mkState (mkStream [x40; x3c; x90; x00]
                          [x00; x3e; x50; x00; xff; x2f; x00])
                (mkTrack 0 0) 0x90 false [[mkNote 60 true]] [RNoteOn 60 64 0])
     = Ok (0x90, mkState (mkStream [x00; x40; x3c; x90; x00]
                                   [x3e; x50; x00; xff; x2f; x00])
                         (mkTrack 0 0) 0x90 false [[mkNote 60 true]]
                         [RNoteOn 60 64 0])
  /\ event_loop 3 0
       (first_track_state [x00; x90; x3c; x40; x00; x3e; x50; x00; xff; x2f; x00])
     = Ok (tt, mkState (mkStream [x00; x2f; xff; x00; x50; x3e; x00; x40; x3c;
                                  x90; x00] [])
                       (mkTrack 0 0) 0xFF true
                       [[mkNote 60 true; mkNote 62 true]]
                       [RNoteOn 60 64 0; RNoteOn 62 80 0; REndOfTrack]).
Proof.
  split; [|repeat split; vm_compute; reflexivity].
  intros. now apply resolve_status_running.
Qed.

Lemma C4_running_status_witness :
  u8 x3e < 0x80
  /\ resolve_status
       (mkState (mkStream [x00; x40; x3c; x90; x00]
                          [x3e; x50; x00; xff; x2f; x00])
                (mkTrack 0 0) 0x90 false [[mkNote 60 true]] [RNoteOn 60 64 0])
     = Ok (0x90,
           mkState (mkStream [x00; x40; x3c; x90; x00]
                             [x3e; x50; x00; xff; x2f; x00])
                   (mkTrack 0 0) 0x90 false [[mkNote 60 true]]
                   [RNoteOn 60 64 0]).
Proof.
  split; [reflexivity|].
  apply (proj1 C4_running_status). reflexivity.
Defined.

(** ** C5: a data byte where the first status byte should be *)

(** C5, as amended.  While [prevStatus] still holds its initial 0, a candidate
    status byte below 0x80 raises no error: the byte is put back, status 0
    matches no case of the switch, nothing more is read, nothing is printed
    and no variable changes.  The pass has consumed the delta-time only, and
    the next pass reads the byte as the start of a delta-time. *)
Theorem C5_data_byte_without_status_is_skipped
        k ds b before rest tc fl tn o :
  is_vlq ds = true ->
  u8 b < 0x80 ->
  event_iteration k (mkState (mkStream before (ds ++ b :: rest)) tc 0 fl tn o)
  = Ok (tt, mkState (mkStream (rev ds ++ before) (b :: rest)) tc 0 fl tn o).
Proof.
  intros Hds Hb. unfold event_iteration.
  rewrite (bind_ok _ _ _ _ _
             (file_readVariableLengthData_ok _ _ _ _ _ _ _ _ Hds)).
  rewrite (bind_ok _ _ _ _ _ (resolve_status_running _ _ _ _ _ _ _ _ Hb)).
  reflexivity.
Qed.

Lemma C5_data_byte_without_status_is_skipped_witness :
  is_vlq [x00] = true
  /\ u8 x3c < 0x80
  /\ event_iteration 0 (first_track_state [x00; x3c; x40; x00; xff; x2f; x00])
     = Ok (tt, mkState (mkStream [x00] [x3c; x40; x00; xff; x2f; x00])
                       (mkTrack 0 0) 0 false [[]] []).
Proof.
  split; [reflexivity|]. split; [reflexivity|].
  apply (C5_data_byte_without_status_is_skipped
           0 [x00] x3c [] [x40; x00; xff; x2f; x00]); reflexivity.
Defined.

(** C5, as stated, fails: a file whose only track starts with the data bytes
    3C 40 is decoded to its end of track without any failure and without any
    error line. *)
Lemma C5_no_hard_error_counterexample :
  (forall e, doWork data_first_file <> Fail e)
  /\ exists st,
      doWork data_first_file = Ok st
      /\ out st = [RParserBanner 1; RTrackNumber 0; REndOfTrack;
                   RAllTracksProcessed]
      /\ getTrackNotes st = [[]].
Proof.
  split.
  - intros e. vm_compute. discriminate.
  - eexists. split; [vm_compute; reflexivity|]. split; reflexivity.
Qed.

(** ** C6: the running status at the start of a track *)

(** C6, as amended.  [prevStatus] is not reset between tracks: once a track
    has been decoded to its end, the event loop of the next track starts with
    0xFF in [prevStatus], the status byte of the end-of-track event. *)
Theorem C6_prevStatus_carried_into_next_track k st u1 st1 u2 st2 :
  one_track k st = Ok (u1, st1) ->
  track_begin (S k) st1 = Ok (u2, st2) ->
  prevStatus st2 = 0xFF /\ reachedEndOfTrack st2 = false.
Proof.
  intros H1 H2.
  pose proof (one_track_effect k st) as E1. rewrite H1 in E1.
  pose proof (track_begin_effect (S k) st1) as E2. rewrite H2 in E2.
  destruct E1 as [_ Hps]. destruct E2 as (Hfl & Hps' & _).
  split; [congruence | assumption].
Qed.

Lemma C6_prevStatus_carried_into_next_track_witness :
  one_track 0 (tracks_start 2 (sample_header x02) two_chunks)
  = Ok (tt, two_chunks_after_first)
  /\ track_begin 1 two_chunks_after_first = Ok (tt, two_chunks_second_start)
  /\ prevStatus two_chunks_second_start = 0xFF
  /\ reachedEndOfTrack two_chunks_second_start = false.
Proof.
  assert (H1 : one_track 0 (tracks_start 2 (sample_header x02) two_chunks)
               = Ok (tt, two_chunks_after_first)) by (vm_compute; reflexivity).
  assert (H2 : track_begin 1 two_chunks_after_first
               = Ok (tt, two_chunks_second_start)) by (vm_compute; reflexivity).
  split; [exact H1|]. split; [exact H2|].
  exact (C6_prevStatus_carried_into_next_track _ _ _ _ _ _ H1 H2).
Defined.

(** C6, as stated, fails: in a file of two tracks whose second track is the
    three bytes 00 2F 00, the event loop of the second track starts with the
    0xFF that the first track left in [prevStatus]; the byte 2F, which stands
    where the first status byte of the track should be, is resolved against it
    and read as the type of an end-of-track event. *)
Lemma C6_status_of_previous_track_used_counterexample :
  one_track 0 (tracks_start 2 (sample_header x02) two_chunks)
  = Ok (tt, two_chunks_after_first)
  /\ track_begin 1 two_chunks_after_first = Ok (tt, two_chunks_second_start)
  /\ pending (file two_chunks_second_start) = [x00; x2f; x00]
  /\ prevStatus two_chunks_second_start = 0xFF
  /\ prevStatus two_chunks_second_start <> 0
  /\ exists st3,
      event_iteration 1 two_chunks_second_start = Ok (tt, st3)
      /\ reachedEndOfTrack st3 = true
      /\ out st3 = [RParserBanner 2;
                    RTrackNumber 0; RNoteOn 60 64 0; REndOfTrack;
                    RTrackNumber 1; REndOfTrack]
      /\ exists st,
          doWork (sample_header x02 ++ two_chunks) = Ok st
          /\ out st = out st3 ++ [RAllTracksProcessed].
Proof.
  split; [vm_compute; reflexivity|].
  split; [vm_compute; reflexivity|].
  split; [reflexivity|]. split; [reflexivity|]. split; [discriminate|].
  eexists.
  split; [vm_compute; reflexivity|].
  split; [reflexivity|]. split; [reflexivity|].
  eexists. split; [vm_compute; reflexivity | reflexivity].
Qed.

(** ** C7: end of track *)

(** C7.  When a pass of the loop starts on a delta-time followed by
    FF 2F 00, the loop ends with that pass: the cursor stands right behind the
    00 and the bytes after it are not read, whatever they are, whatever length
    the track chunk declares, and however many further passes the loop would
    be allowed. *)
Theorem C7_end_of_track_ends_the_loop
        fuel k ds before rest tc ps tn o :
  is_vlq ds = true ->
  event_loop (S fuel) k
    (mkState (mkStream before (ds ++ xff :: x2f :: x00 :: rest)) tc ps false tn o)
  = Ok (tt, mkState (mkStream (x00 :: x2f :: xff :: rev ds ++ before) rest)
                    tc 0xFF true tn (o ++ [REndOfTrack])).
Proof.
  intros Hds. rewrite event_loop_step.
  rewrite (bind_ok _ _ _ _ _
             (event_iteration_end_of_track _ _ _ _ _ _ _ _ _ Hds)).
  apply event_loop_done.
Qed.

Lemma C7_end_of_track_ends_the_loop_witness :
  is_vlq [x81; x00] = true
  /\ event_loop 100 0
       (mkState (mkStream [] [x81; x00; xff; x2f; x00; x00; x90; x3c; x40])
                (mkTrack 0x4D54726B 1000) 0x90 false [[]] [])
     = Ok (tt, mkState (mkStream [x00; x2f; xff; x00; x81]
                                 [x00; x90; x3c; x40])
                       (mkTrack 0x4D54726B 1000) 0xFF true [[]] [REndOfTrack]).
Proof.
  split; [reflexivity|].
  apply (C7_end_of_track_ends_the_loop 99 0 [x81; x00] [] [x00; x90; x3c; x40]).
  reflexivity.
Defined.

(** ** C8: an unknown status byte of the 0xF family *)

(** C8.  A status byte of the 0xF family other than 0xFF, 0xF0 and 0xF7 makes
    the pass print the status-byte error and read nothing after the status
    byte; the track goes on: the events that follow are decoded from the next
    delta-time on, up to the end of the track. *)
Theorem C8_status_byte_error_is_not_fatal
        fuel k ds s events last_delta before rest tc ps tn o :
  is_vlq ds = true ->
  0xF0 <= u8 s ->
  u8 s <> 0xFF -> u8 s <> 0xF0 -> u8 s <> 0xF7 ->
  wf_events (u8 s) events = true ->
  valid_delta last_delta = true ->
  (k < length tn)%nat ->
  (S (length events) < fuel)%nat ->
  event_iteration k
    (mkState (mkStream before
                (ds ++ s :: track_bytes events last_delta ++ rest))
             tc ps false tn o)
  = Ok (tt, mkState (mkStream (s :: rev ds ++ before)
                              (track_bytes events last_delta ++ rest))
                    tc (u8 s) false tn (o ++ [RStatusByteError (u8 s)]))
  /\ event_loop fuel k
       (mkState (mkStream before
                   (ds ++ s :: track_bytes events last_delta ++ rest))
                tc ps false tn o)
     = Ok (tt, mkState
                 (mkStream (rev (track_bytes events last_delta)
                              ++ s :: rev ds ++ before) rest)
                 tc 0xFF true (extend_at k (track_notes events) tn)
                 (o ++ RStatusByteError (u8 s)
                    :: track_reports events ++ [REndOfTrack])).
Proof.
  intros Hds Hs HFF HF0 HF7 Hwf Hlast Hk Hfuel.
  assert (Hstep :
    event_iteration k
      (mkState (mkStream before
                  (ds ++ s :: track_bytes events last_delta ++ rest))
               tc ps false tn o)
    = Ok (tt, mkState (mkStream (s :: rev ds ++ before)
                                (track_bytes events last_delta ++ rest))
                      tc (u8 s) false tn (o ++ [RStatusByteError (u8 s)]))).
  { unfold event_iteration.
    rewrite (bind_ok _ _ _ _ _
               (file_readVariableLengthData_ok _ _ _ _ _ _ _ _ Hds)).
    rewrite (bind_ok _ _ _ _ _
               (resolve_status_explicit _ s _ _ _ _ _ _ ltac:(lia))).
    pose proof (u8_range s).
    rewrite dispatch_metaEvent by (apply meta_family; lia).
    unfold case_metaEvent, bind. cbn.
    apply Z.eqb_neq in HFF, HF0, HF7. rewrite HFF, HF0, HF7. reflexivity. }
  split; [exact Hstep|].
  destruct fuel as [|fuel]; [lia|].
  rewrite event_loop_step, (bind_ok _ _ _ _ _ Hstep).
  rewrite event_loop_track; try assumption; [|lia].
  now rewrite <- app_assoc.
Qed.

Lemma C8_status_byte_error_is_not_fatal_witness :
  is_vlq [x00] = true
  /\ 0xF0 <= u8 xf3
  /\ event_loop 3 0
       (first_track_state
          ([x00] ++ xf3 :: track_bytes [(0, Voice x90 [x3c; x40] false)] 0 ++ []))
     = Ok (tt, mkState (mkStream [x00; x2f; xff; x00; x40; x3c; x90; x00; xf3;
                                  x00] [])
                       (mkTrack 0 0) 0xFF true [[mkNote 60 true]]
                       [RStatusByteError 0xF3; RNoteOn 60 64 0; REndOfTrack]).
Proof.
  split; [reflexivity|]. split; [vm_compute; discriminate|].
  apply (C8_status_byte_error_is_not_fatal 3 0 [x00] xf3
           [(0, Voice x90 [x3c; x40] false)] 0 [] [] (mkTrack 0 0) 0 [[]] []);
    try reflexivity; try (vm_compute; discriminate); cbn; lia.
Defined.

(** ** C9: variable-length quantities *)

(** C9.  [readVariableLengthData] undoes the standard encoding: on the bytes
    of any value from 0 to 0x0FFFFFFF it returns that value and stops right
    behind them.  00 reads as 0, 81 00 as 128 and FF 7F as 0x3FFF. *)
Theorem C9_readVariableLengthData_inverts_encoding :
  readVariableLengthData (open [x00]) = Ok (0, mkStream [x00] [])
  /\ readVariableLengthData (open [x81; x00]) = Ok (128, mkStream [x00; x81] [])
  /\ readVariableLengthData (open [xff; x7f])
     = Ok (0x3FFF, mkStream [x7f; xff] [])
  /\ forall v before rest,
      0 <= v <= 0x0FFFFFFF ->
      readVariableLengthData (mkStream before (encodeVLQ v ++ rest))
      = Ok (v, mkStream (rev (encodeVLQ v) ++ before) rest).
Proof.
  split; [vm_compute; reflexivity|].
  split; [vm_compute; reflexivity|].
  split; [vm_compute; reflexivity|].
  intros v before rest Hv. apply readVariableLengthData_encodeVLQ. lia.
Qed.

Lemma C9_readVariableLengthData_inverts_encoding_witness :
  0 <= 0x0FFFFFFF <= 0x0FFFFFFF
  /\ encodeVLQ 0x0FFFFFFF = [xff; xff; xff; x7f]
  /\ readVariableLengthData (mkStream [] (encodeVLQ 0x0FFFFFFF ++ [x90]))
     = Ok (0x0FFFFFFF, mkStream (rev (encodeVLQ 0x0FFFFFFF) ++ []) [x90]).
Proof.
  split; [lia|]. split; [reflexivity|].
  apply (proj2 (proj2 (proj2 C9_readVariableLengthData_inverts_encoding))).
  lia.
Defined.

(** ** C10: the running status after an event of the 0xF family *)

Lemma u8_inj (a b : byte) : u8 a = u8 b -> a = b.
Proof.
  unfold u8. intros H. apply N2Z.inj in H.
  pose proof (Byte.of_to_N a) as Ha. rewrite H, Byte.of_to_N in Ha.
  now inversion Ha.
Qed.

(** A pass on an explicit status byte of the 0xF family, and a pass on a
    data byte while such a byte is recorded: both run [case_metaEvent]. *)
Lemma event_iteration_0xF_explicit k ds s before rest tc ps fl tn o :
  is_vlq ds = true ->
  0xF0 <= u8 s ->
  event_iteration k (mkState (mkStream before (ds ++ s :: rest)) tc ps fl tn o)
  = case_metaEvent (u8 s)
      (mkState (mkStream (s :: rev ds ++ before) rest) tc ps fl tn o).
Proof.
  intros Hds Hs. unfold event_iteration.
  rewrite (bind_ok _ _ _ _ _
             (file_readVariableLengthData_ok _ _ _ _ _ _ _ _ Hds)).
  rewrite (bind_ok _ _ _ _ _
             (resolve_status_explicit _ s _ _ _ _ _ _ ltac:(lia))).
  pose proof (u8_range s).
  now rewrite dispatch_metaEvent by (apply meta_family; lia).
Qed.

Lemma event_iteration_0xF_running k ds b before rest tc ps fl tn o :
  is_vlq ds = true ->
  u8 b < 0x80 ->
  0xF0 <= ps < 256 ->
  event_iteration k (mkState (mkStream before (ds ++ b :: rest)) tc ps fl tn o)
  = case_metaEvent ps
      (mkState (mkStream (rev ds ++ before) (b :: rest)) tc ps fl tn o).
Proof.
  intros Hds Hb Hps. unfold event_iteration.
  rewrite (bind_ok _ _ _ _ _
             (file_readVariableLengthData_ok _ _ _ _ _ _ _ _ Hds)).
  rewrite (bind_ok _ _ _ _ _ (resolve_status_running _ _ _ _ _ _ _ _ Hb)).
  now rewrite dispatch_metaEvent by (apply meta_family; lia).
Qed.

(** What [meta_switch] does on the bytes that its [case] takes. *)
Lemma meta_switch_taken type ls payload before rest tc ps fl tn o :
  meta_taken_ok type ls payload = true ->
  exists fl' lines,
    meta_switch type (vlq_value ls)
      (mkState (mkStream before (payload ++ rest)) tc ps fl tn o)
    = Ok (tt, mkState (mkStream (rev payload ++ before) rest) tc ps fl' tn
                      (o ++ lines)).
Proof.
  unfold meta_taken_ok. intros H.
  destruct (Z.eqb_spec type MetaEventType.endOfTrack) as [-> | Hne].
  - cbn [orb] in H. destruct payload; [|discriminate H].
    exists true, [REndOfTrack]. reflexivity.
  - cbn [orb] in H.
    destruct (is_interpreted_type type) eqn:Hint; cbn [negb] in H.
    + apply andb_prop in H as [Hok Hlen].
      exists fl, (meta_reports type payload).
      rewrite <- (meta_switch_ok type payload before rest tc ps fl tn o Hok).
      destruct (is_text_type type || (type =? MetaEventType.sequencerSpecific))
        eqn:Hvar.
      * apply Z.eqb_eq in Hlen. now rewrite Hlen.
      * apply orb_false_elim in Hvar as [Htext Hseq].
        unfold meta_switch. rewrite Htext, Hseq. reflexivity.
    + destruct payload; [|discriminate H].
      exists fl, []. rewrite meta_switch_other_type by assumption.
      cbn. now rewrite app_nil_r.
Qed.

(** [case_metaEvent] on the bytes that its branch takes. *)
Lemma case_metaEvent_body s body before rest tc ps fl tn o :
  f_family_body s body ->
  exists fl' lines,
    case_metaEvent (u8 s)
      (mkState (mkStream before (body ++ rest)) tc ps fl tn o)
    = Ok (tt, mkState (mkStream (rev body ++ before) rest) tc (u8 s) fl' tn
                      (o ++ lines)).
Proof.
  intros [type ls payload E Hls Htaken
         | type ls payload E Hls Hlen
         | H0 HFF HF0 HF7].
  - destruct (meta_switch_taken (u8 type) ls payload
                (rev ls ++ type :: before) rest tc 0xFF fl tn o Htaken)
      as (fl' & lines & Hrun).
    exists fl', lines. rewrite E.
    unfold case_metaEvent. unfold bind at 1. cbn. unfold with_file. cbn.
    rewrite <- app_assoc.
    rewrite (bind_ok _ _ _ _ _
               (file_readVariableLengthData_ok _ _ _ _ _ _ _ _ Hls)).
    rewrite Hrun. rewrite rev_app_distr, <- !app_assoc. reflexivity.
  - assert (Hrun : forall r,
      (type0 <- file_read ;;
       length <- file_readVariableLengthData ;;
       text <- file_readDefinedLengthData length ;;
       cout r)
        (mkState (mkStream before (type :: ls ++ payload ++ rest))
                 tc (u8 s) fl tn o)
      = Ok (tt, mkState
                  (mkStream (rev payload ++ rev ls ++ type :: before) rest)
                  tc (u8 s) fl tn (o ++ [r]))).
    { intros r.
      rewrite (bind_ok _ _ _ _ _ (file_read_ok _ _ _ _ _ _ _ _)).
      rewrite (bind_ok _ _ _ _ _
                 (file_readVariableLengthData_ok _ _ _ _ _ _ _ _ Hls)).
      rewrite Hlen.
      rewrite (bind_ok _ _ _ _ _
                 (file_readDefinedLengthData_ok _ _ _ _ _ _ _ _)).
      reflexivity. }
    exists fl, [if u8 s =? 0xF0 then RSysexBegin else RSysexEnd].
    cbn [app rev]. rewrite <- app_assoc, rev_app_distr, <- !app_assoc.
    cbn [app].
    unfold case_metaEvent. unfold bind at 1. cbn.
    destruct E as [E | E]; rewrite E in Hrun |- *; cbn; apply Hrun.
  - exists fl, [RStatusByteError (u8 s)].
    unfold case_metaEvent, bind. cbn.
    apply Z.eqb_neq in HFF, HF0, HF7. rewrite HFF, HF0, HF7. reflexivity.
Qed.

(** C10.  A pass that reads an explicit status byte of the 0xF family and
    the bytes that its branch takes (a meta-event, a system exclusive event,
    or nothing at all after another byte such as 0xF3) completes with that
    byte in [prevStatus], whatever was recorded before, and pushes no note.
    A pass that then finds a byte below 0x80 where the status should be runs
    the 0xF branch under the recorded byte with the cursor on that byte, and
    the branch, given the bytes it takes, completes with the same byte still
    recorded.  After 90 3C 40 and the meta-event FF 01 00, the bytes 2F 00
    are read as an end of track and not as a noteOn. *)
Theorem C10_prevStatus_after_0xF_family :
  (forall k ds s body before rest tc ps fl tn o,
      is_vlq ds = true ->
      f_family_body s body ->
      (exists fl' lines,
          event_iteration k
            (mkState (mkStream before (ds ++ s :: body ++ rest)) tc ps fl tn o)
          = Ok (tt, mkState (mkStream (rev body ++ s :: rev ds ++ before) rest)
                            tc (u8 s) fl' tn (o ++ lines)))
      /\ (forall ds' b before' rest' tc' fl' tn' o',
             is_vlq ds' = true ->
             u8 b < 0x80 ->
             event_iteration k
               (mkState (mkStream before' (ds' ++ b :: rest')) tc' (u8 s) fl'
                        tn' o')
             = case_metaEvent (u8 s)
                 (mkState (mkStream (rev ds' ++ before') (b :: rest')) tc'
                          (u8 s) fl' tn' o'))
      /\ (forall body' before' rest' tc' ps' fl' tn' o',
             f_family_body s body' ->
             exists fl'' lines',
               case_metaEvent (u8 s)
                 (mkState (mkStream before' (body' ++ rest')) tc' ps' fl' tn'
                          o')
               = Ok (tt, mkState (mkStream (rev body' ++ before') rest') tc'
                                 (u8 s) fl'' tn' (o' ++ lines'))))
  /\ event_loop 3 0
       (first_track_state
          [x00; x90; x3c; x40; x00; xff; x01; x00; x00; x2f; x00])
     = Ok (tt, mkState (mkStream [x00; x2f; x00; x00; x01; xff; x00; x40; x3c;
                                  x90; x00] [])
                       (mkTrack 0 0) 0xFF true [[mkNote 60 true]]
                       [RNoteOn 60 64 0; RText 1 []; REndOfTrack]).
Proof.
  split; [|vm_compute; reflexivity].
  intros k ds s body before rest tc ps fl tn o Hds Hbody.
  assert (Hs : 0xF0 <= u8 s < 256).
  { pose proof (u8_range s). destruct Hbody as [? ? ? E | ? ? ? [E | E] |];
      lia. }
  split; [|split].
  - rewrite event_iteration_0xF_explicit by (assumption || lia).
    exact (case_metaEvent_body s body (s :: rev ds ++ before) rest tc ps fl tn
             o Hbody).
  - intros ds' b before' rest' tc' fl' tn' o' Hds' Hb.
    now apply event_iteration_0xF_running.
  - intros body' before' rest' tc' ps' fl' tn' o' Hbody'.
    now apply case_metaEvent_body.
Qed.

Lemma C10_prevStatus_after_0xF_family_witness :
  is_vlq [x00] = true
  /\ f_family_body xf0 (x7e :: [x03] ++ [x90; x3c; x40])
  /\ (exists fl' lines,
         event_iteration 0
           (mkState (mkStream []
                       ([x00] ++ xf0 :: (x7e :: [x03] ++ [x90; x3c; x40])
                          ++ [x00; x3c; x40]))
                    (mkTrack 0 0) 0x90 false [[]] [])
         = Ok (tt, mkState (mkStream (rev (x7e :: [x03] ++ [x90; x3c; x40])
                                        ++ xf0 :: rev [x00] ++ [])
                                     [x00; x3c; x40])
                           (mkTrack 0 0) (u8 xf0) fl' [[]] ([] ++ lines)))
  /\ event_iteration 0
       (mkState (mkStream []
                   ([x00] ++ xf0 :: (x7e :: [x03] ++ [x90; x3c; x40])
                      ++ [x00; x3c; x40]))
                (mkTrack 0 0) 0x90 false [[]] [])
     = Ok (tt, mkState (mkStream [x40; x3c; x90; x03; x7e; xf0; x00]
                                 [x00; x3c; x40])
                       (mkTrack 0 0) 0xF0 false [[]] [RSysexBegin]).
Proof.
  assert (Hds : is_vlq [x00] = true) by reflexivity.
  assert (Hbody : f_family_body xf0 (x7e :: [x03] ++ [x90; x3c; x40]))
    by (apply body_sysex; [left; reflexivity | reflexivity | reflexivity]).
  split; [exact Hds|]. split; [exact Hbody|].
  split; [|vm_compute; reflexivity].
  exact (proj1 (proj1 C10_prevStatus_after_0xF_family 0%nat [x00] xf0 _ []
                  [x00; x3c; x40] (mkTrack 0 0) 0x90 false [[]] []
                  Hds Hbody)).
Defined.

(** * Further properties of the code *)

(** ** [isMSBHigh] *)

(** X1.  [isMSBHigh] is true exactly for the bytes from 0x80 up (the comment
    above the function in the source says the opposite). *)
Theorem X1_isMSBHigh_iff_byte_at_least_0x80 (b : byte) :
  isMSBHigh (u8 b) = (0x80 <=? u8 b).
Proof. destruct b; reflexivity. Qed.

(** ** [readVariableLengthData] as arithmetic *)

Lemma vlq_step_arith (a a' : Z) (b : byte) :
  a = a' mod 2 ^ 32 ->
  Z.lor (shl32 a 7) (Z.land (u8 b) 0x7f) = (a' * 128 + u8 b mod 128) mod 2 ^ 32.
Proof.
  intros ->. unfold shl32, wrap32.
  rewrite Z.shiftl_mul_pow2 by lia.
  change (2 ^ 7) with 128.
  rewrite Z.mul_mod_idemp_l by lia.
  change 0x7f with (Z.ones 7). rewrite Z.land_ones by lia.
  change (2 ^ 7) with 128.
  set (t := u8 b mod 128).
  assert (Ht : 0 <= t < 128) by (apply Z.mod_pos_bound; lia).
  set (h := (a' * 128) mod 2 ^ 32).
  assert (Hh : h = 128 * (a' mod 2 ^ 25)).
  { unfold h. rewrite (Z.mul_comm a' 128).
    change (2 ^ 32) with (128 * 2 ^ 25).
    now rewrite Z.mul_mod_distr_l by lia. }
  assert (Hr : 0 <= a' mod 2 ^ 25 < 2 ^ 25) by (apply Z.mod_pos_bound; lia).
  assert (Hdisj : Z.land h t = 0).
  { apply Z.bits_inj'. intros n Hn. rewrite Z.land_spec, Z.bits_0.
    destruct (Z.ltb_spec n 7) as [Hlt | Hge].
    - rewrite Hh. change 128 with (2 ^ 7).
      rewrite Z.mul_comm, Z.mul_pow2_bits_low by lia. reflexivity.
    - assert (Z.testbit t n = false) as ->; [|apply andb_false_r].
      destruct (Z.eq_dec t 0) as [-> | Hnz]; [apply Z.testbit_0_l|].
      apply Z.bits_above_log2; [lia|].
      apply Z.lt_le_trans with 7; [|assumption].
      apply Z.log2_lt_pow2; lia. }
  rewrite <- Z.lxor_lor by assumption.
  rewrite <- Z.add_nocarry_lxor by assumption.
  rewrite <- (Z.mod_small (h + t) (2 ^ 32)) by lia.
  unfold h. now rewrite Z.add_mod_idemp_l by lia.
Qed.

Lemma vlq_fold_arith (bs : list byte) :
  forall a a',
    a = a' mod 2 ^ 32 ->
    fold_left (fun result temp =>
                 Z.lor (shl32 result 7) (Z.land (u8 temp) 0x7f)) bs a
    = fold_left (fun n b => n * 128 + u8 b mod 128) bs a' mod 2 ^ 32.
Proof.
  induction bs as [|b bs IH]; intros a a' Ha; cbn [fold_left].
  - assumption.
  - apply IH. now apply vlq_step_arith.
Qed.

Lemma vlq_value_number (bs : list byte) :
  vlq_value bs = vlq_number bs mod 2 ^ 32.
Proof. unfold vlq_value, vlq_number. now apply vlq_fold_arith. Qed.

Lemma vlq_number_bound (bs : list byte) :
  0 <= vlq_number bs < 128 ^ Z.of_nat (length bs).
Proof.
  unfold vlq_number.
  assert (H : forall n,
             0 <= n ->
             0 <= fold_left (fun n b => n * 128 + u8 b mod 128) bs n
             < (n + 1) * 128 ^ Z.of_nat (length bs)).
  { induction bs as [|b bs IH]; intros n Hn; cbn [fold_left length].
    - change (Z.of_nat 0) with 0. lia.
    - assert (Ht : 0 <= u8 b mod 128 < 128) by (apply Z.mod_pos_bound; lia).
      specialize (IH (n * 128 + u8 b mod 128) ltac:(lia)).
      rewrite Nat2Z.inj_succ, Z.pow_succ_r by lia.
      assert (0 < 128 ^ Z.of_nat (length bs)) by (apply Z.pow_pos_nonneg; lia).
      nia. }
  specialize (H 0 ltac:(lia)). lia.
Qed.

(** X2.  On any run of bytes closed by a byte below 0x80,
    [readVariableLengthData] returns the base-128 number of the run reduced
    modulo 2^32 (the [uint32_t] wraps around silently on runs of five bytes
    and more) and leaves the cursor right behind the run. *)
Theorem X2_readVariableLengthData_is_base128_mod_2_32
        (bs before rest : list byte) :
  is_vlq bs = true ->
  readVariableLengthData (mkStream before (bs ++ rest))
  = Ok (vlq_number bs mod 2 ^ 32, mkStream (rev bs ++ before) rest).
Proof.
  intros Hbs. rewrite readVariableLengthData_run by assumption.
  now rewrite vlq_value_number.
Qed.

Lemma X2_readVariableLengthData_is_base128_mod_2_32_witness :
  is_vlq [xff; xff; xff; xff; x7f] = true
  /\ vlq_number [xff; xff; xff; xff; x7f] = 2 ^ 35 - 1
  /\ readVariableLengthData (mkStream [] ([xff; xff; xff; xff; x7f] ++ [x90]))
     = Ok ((2 ^ 35 - 1) mod 2 ^ 32,
           mkStream (rev [xff; xff; xff; xff; x7f] ++ []) [x90]).
Proof.
  split; [reflexivity|]. split; [reflexivity|].
  apply (X2_readVariableLengthData_is_base128_mod_2_32
           [xff; xff; xff; xff; x7f] [] [x90]).
  reflexivity.
Defined.

(** X3.  On a run of at most four bytes nothing wraps: the value returned is
    the base-128 number itself, and it is below 2^28. *)
Theorem X3_readVariableLengthData_four_bytes_no_wrap
        (bs before rest : list byte) :
  is_vlq bs = true ->
  (length bs <= 4)%nat ->
  readVariableLengthData (mkStream before (bs ++ rest))
  = Ok (vlq_number bs, mkStream (rev bs ++ before) rest)
  /\ 0 <= vlq_number bs < 2 ^ 28.
Proof.
  intros Hbs Hlen.
  pose proof (vlq_number_bound bs) as Hb.
  assert (H128 : 128 ^ Z.of_nat (length bs) <= 128 ^ 4)
    by (apply Z.pow_le_mono_r; lia).
  change (128 ^ 4) with (2 ^ 28) in H128.
  split; [|lia].
  rewrite readVariableLengthData_run by assumption.
  rewrite vlq_value_number, Z.mod_small by lia. reflexivity.
Qed.

Lemma X3_readVariableLengthData_four_bytes_no_wrap_witness :
  is_vlq [x81; x80; x00] = true
  /\ (length [x81; x80; x00] <= 4)%nat
  /\ readVariableLengthData (mkStream [] ([x81; x80; x00] ++ []))
     = Ok (0x4000, mkStream (rev [x81; x80; x00] ++ []) []).
Proof.
  split; [reflexivity|]. split; [cbn; lia|].
  apply (X3_readVariableLengthData_four_bytes_no_wrap [x81; x80; x00] [] []).
  - reflexivity.
  - cbn. lia.
Defined.

(** X4.  The decoder accepts padded encodings: bytes 0x80 in front of a run
    do not change the value that is read, so different byte sequences decode
    to the same number. *)
Theorem X4_readVariableLengthData_ignores_leading_0x80
        (bs before rest : list byte) (v : Z) (s : ifstream) :
  is_vlq bs = true ->
  readVariableLengthData (mkStream (x80 :: before) (bs ++ rest)) = Ok (v, s) ->
  readVariableLengthData (mkStream before (x80 :: bs ++ rest)) = Ok (v, s).
Proof.
  intros Hbs.
  change (x80 :: bs ++ rest) with ((x80 :: bs) ++ rest).
  rewrite !readVariableLengthData_run by (try assumption; exact Hbs).
  cbn [rev]. rewrite <- app_assoc. cbn [app].
  intros H. inversion H. reflexivity.
Qed.

Lemma X4_readVariableLengthData_ignores_leading_0x80_witness :
  is_vlq [x81; x00] = true
  /\ readVariableLengthData (mkStream [x80] ([x81; x00] ++ [x90]))
     = Ok (128, mkStream [x00; x81; x80] [x90])
  /\ readVariableLengthData (mkStream [] (x80 :: [x81; x00] ++ [x90]))
     = Ok (128, mkStream [x00; x81; x80] [x90]).
Proof.
  assert (H : readVariableLengthData (mkStream [x80] ([x81; x00] ++ [x90]))
              = Ok (128, mkStream [x00; x81; x80] [x90])) by reflexivity.
  split; [reflexivity|]. split; [exact H|].
  exact (X4_readVariableLengthData_ignores_leading_0x80
           [x81; x00] [] [x90] 128 _ eq_refl H).
Defined.

(** ** Byte order of the chunk headers *)

Lemma lor_low_high (lo hi k : Z) :
  0 <= k -> 0 <= lo < 2 ^ k -> Z.lor lo (hi * 2 ^ k) = lo + hi * 2 ^ k.
Proof.
  intros Hk Hlo.
  assert (Hdisj : Z.land lo (hi * 2 ^ k) = 0).
  { apply Z.bits_inj'. intros n Hn. rewrite Z.land_spec, Z.bits_0.
    destruct (Z.ltb_spec n k) as [Hlt | Hge].
    - rewrite Z.mul_pow2_bits_low by lia. apply andb_false_r.
    - assert (Z.testbit lo n = false) as ->; [|reflexivity].
      destruct (Z.eq_dec lo 0) as [-> | Hnz]; [apply Z.testbit_0_l|].
      apply Z.bits_above_log2; [lia|].
      apply Z.lt_le_trans with k; [|assumption].
      apply Z.log2_lt_pow2; lia. }
  rewrite <- Z.lxor_lor by assumption.
  symmetry. now apply Z.add_nocarry_lxor.
Qed.

Lemma land_byte_mask (y k : Z) :
  0 <= k -> Z.land y (Z.shiftl 255 k) = ((y / 2 ^ k) mod 256) * 2 ^ k.
Proof.
  intros Hk.
  rewrite <- Z.shiftl_mul_pow2 by assumption.
  change 256 with (2 ^ 8). rewrite <- Z.land_ones by lia.
  rewrite <- Z.shiftr_div_pow2 by assumption.
  change 255 with (Z.ones 8).
  apply Z.bits_inj'. intros n Hn. rewrite Z.land_spec.
  destruct (Z.ltb_spec n k) as [Hlt | Hge].
  - rewrite !Z.shiftl_spec_low by assumption. apply andb_false_r.
  - rewrite !Z.shiftl_spec by assumption.
    rewrite Z.land_spec, Z.shiftr_spec by lia.
    replace (n - k + k) with n by lia. reflexivity.
Qed.

Lemma load32_value (b0 b1 b2 b3 : byte) :
  load32 b0 b1 b2 b3
  = u8 b0 + u8 b1 * 2 ^ 8 + u8 b2 * 2 ^ 16 + u8 b3 * 2 ^ 24.
Proof.
  pose proof (u8_range b0). pose proof (u8_range b1).
  pose proof (u8_range b2). pose proof (u8_range b3).
  unfold load32. rewrite !Z.shiftl_mul_pow2 by lia.
  rewrite (lor_low_high (u8 b0)) by lia.
  rewrite (lor_low_high (u8 b0 + _)) by lia.
  rewrite (lor_low_high (u8 b0 + _ + _)) by lia.
  reflexivity.
Qed.

(** The four masks and shifts of [swapEndianess32] undo the little-endian
    load: the field gets the big-endian value of its four bytes in the
    file. *)
Lemma swapEndianess32_load32 (b0 b1 b2 b3 : byte) :
  swapEndianess32 (load32 b0 b1 b2 b3) = big_endian [b0; b1; b2; b3].
Proof.
  pose proof (u8_range b0) as H0. pose proof (u8_range b1) as H1.
  pose proof (u8_range b2) as H2. pose proof (u8_range b3) as H3.
  unfold swapEndianess32. rewrite load32_value.
  set (x := u8 b0 + u8 b1 * 2 ^ 8 + u8 b2 * 2 ^ 16 + u8 b3 * 2 ^ 24).
  change 0x000000ff with (Z.shiftl 255 0).
  change 0x0000ff00 with (Z.shiftl 255 8).
  change 0x00ff0000 with (Z.shiftl 255 16).
  change 0xff000000 with (Z.shiftl 255 24).
  rewrite !land_byte_mask by lia.
  rewrite Z.shiftr_div_pow2, Z.shiftr_div_pow2, !Z.shiftl_mul_pow2 by lia.
  assert (E0 : (x / 2 ^ 24 / 2 ^ 0) mod 256 = u8 b3)
    by (unfold x; change (2 ^ 0) with 1; change (2 ^ 8) with 256;
        change (2 ^ 16) with 65536; change (2 ^ 24) with 16777216;
        Z.div_mod_to_equations; lia).
  assert (E1 : (x / 2 ^ 8 / 2 ^ 8) mod 256 = u8 b2)
    by (unfold x; change (2 ^ 8) with 256;
        change (2 ^ 16) with 65536; change (2 ^ 24) with 16777216;
        Z.div_mod_to_equations; lia).
  assert (E2 : (x * 2 ^ 8 / 2 ^ 16) mod 256 = u8 b1)
    by (unfold x; change (2 ^ 8) with 256;
        change (2 ^ 16) with 65536; change (2 ^ 24) with 16777216;
        Z.div_mod_to_equations; lia).
  assert (E3 : (x * 2 ^ 24 / 2 ^ 24) mod 256 = u8 b0)
    by (unfold x; change (2 ^ 8) with 256;
        change (2 ^ 16) with 65536; change (2 ^ 24) with 16777216;
        Z.div_mod_to_equations; lia).
  rewrite E0, E1, E2, E3.
  change (2 ^ 0) with 1. rewrite Z.mul_1_r.
  rewrite (lor_low_high (u8 b3)) by lia.
  rewrite (lor_low_high (u8 b3 + _)) by lia.
  rewrite (lor_low_high (u8 b3 + _ + _)) by lia.
  unfold big_endian. cbn [fold_left]. lia.
Qed.

Lemma swapEndianess16_big_endian (b0 b1 : byte) :
  swapEndianess16 (load16 b0 b1) = big_endian [b0; b1].
Proof.
  rewrite swapEndianess16_load16. unfold big_endian. cbn [fold_left]. lia.
Qed.

(** X5.  [acquireHeaderData] takes exactly 14 bytes and fills the five fields
    with the big-endian values of bytes 0-3, 4-7, 8-9, 10-11 and 12-13; it
    accepts any 14 bytes: neither the tag nor the declared length is
    checked. *)
Theorem X5_acquireHeaderData_reads_big_endian_fields
        (head before rest : list byte) :
  length head = 14%nat ->
  acquireHeaderData (mkStream before (head ++ rest))
  = Ok (mkHeader (big_endian (firstn 4 head))
                 (big_endian (firstn 4 (skipn 4 head)))
                 (big_endian (firstn 2 (skipn 8 head)))
                 (big_endian (firstn 2 (skipn 10 head)))
                 (big_endian (firstn 2 (skipn 12 head))),
        mkStream (rev head ++ before) rest).
Proof.
  intros H. do 15 (destruct head as [|? head]; try discriminate H).
  cbn [firstn skipn].
  rewrite <- !swapEndianess32_load32, <- !swapEndianess16_big_endian.
  cbn. reflexivity.
Qed.

Lemma X5_acquireHeaderData_reads_big_endian_fields_witness :
  length (sample_header x02) = 14%nat
  /\ acquireHeaderData (mkStream [] (sample_header x02 ++ [x4d; x54]))
     = Ok (mkHeader 0x4D546864 6 1 2 96,
           mkStream (rev (sample_header x02) ++ []) [x4d; x54]).
Proof.
  split; [reflexivity|].
  exact (X5_acquireHeaderData_reads_big_endian_fields
           (sample_header x02) [] [x4d; x54] eq_refl).
Defined.

(** X6.  The start of a track takes exactly 8 bytes, whatever they are, and
    stores the big-endian values of the two halves in [track_chunk]; it
    clears [reachedEndOfTrack], opens an empty vector of notes for the track,
    prints the track number and leaves [prevStatus] as it was. *)
Theorem X6_track_begin_reads_chunk_descriptor
        k (head before rest : list byte) tc ps fl tn o :
  length head = 8%nat ->
  track_begin k (mkState (mkStream before (head ++ rest)) tc ps fl tn o)
  = Ok (tt, mkState (mkStream (rev head ++ before) rest)
                    (mkTrack (big_endian (firstn 4 head))
                             (big_endian (skipn 4 head)))
                    ps false (tn ++ [[]]) (o ++ [RTrackNumber k])).
Proof.
  intros H. rewrite track_begin_ok by assumption.
  do 9 (destruct head as [|? head]; try discriminate H).
  cbn [firstn skipn track_chunk_of].
  now rewrite !swapEndianess32_load32.
Qed.

Lemma X6_track_begin_reads_chunk_descriptor_witness :
  length (sample_chunk_head x08) = 8%nat
  /\ track_begin 1
       (mkState (mkStream [] (sample_chunk_head x08 ++ [x00; xff; x2f; x00]))
                (mkTrack 0 0) 0xFF true [[mkNote 60 true]] [])
     = Ok (tt, mkState (mkStream (rev (sample_chunk_head x08) ++ [])
                                 [x00; xff; x2f; x00])
                       (mkTrack 0x4D54726B 8) 0xFF false
                       [[mkNote 60 true]; []] [RTrackNumber 1]).
Proof.
  split; [reflexivity|].
  exact (X6_track_begin_reads_chunk_descriptor 1 (sample_chunk_head x08) []
           [x00; xff; x2f; x00] (mkTrack 0 0) 0xFF true [[mkNote 60 true]] []
           eq_refl).
Defined.

(** ** [readDefinedLengthData] *)

(** X7.  When at least [n] bytes are left, [readDefinedLengthData] returns
    the next [n] bytes in order and moves the cursor by [n]; for [n = 0] it
    returns the empty string and does not move. *)
Theorem X7_readDefinedLengthData_takes_next_bytes (s : ifstream) (n : nat) :
  (n <= length (pending s))%nat ->
  readDefinedLengthData s (Z.of_nat n)
  = Ok (firstn n (pending s),
        mkStream (rev (firstn n (pending s)) ++ consumed s)
                 (skipn n (pending s))).
Proof.
  intros Hn. destruct s as [before p]. cbn [pending consumed] in *.
  unfold readDefinedLengthData. rewrite Nat2Z.id.
  rewrite <- (firstn_skipn n p) at 1.
  rewrite <- (firstn_length_le p Hn) at 1.
  now rewrite readDefinedLengthData_loop_ok.
Qed.

Lemma X7_readDefinedLengthData_takes_next_bytes_witness :
  (3 <= length (pending (mkStream [x03] [x50; x6e; x6f; x00; xff])))%nat
  /\ readDefinedLengthData (mkStream [x03] [x50; x6e; x6f; x00; xff]) 3
     = Ok ([x50; x6e; x6f], mkStream [x6f; x6e; x50; x03] [x00; xff]).
Proof.
  split; [cbn; lia|].
  apply (X7_readDefinedLengthData_takes_next_bytes
           (mkStream [x03] [x50; x6e; x6f; x00; xff]) 3).
  cbn. lia.
Defined.

(** ** A pass that stays inside the file moves forward *)

(** X8.  A pass of the event loop in which every read finds a byte (and
    line 386 does not divide by zero) leaves strictly fewer bytes to read than
    it found, also when it puts a data byte back for running status or meets
    a status nibble that no [case] handles.  Nothing is said of a pass that
    reads past the end of the file: the source tests no read and its loop
    goes on there without consuming a byte, where the embedding stops with
    [EndOfFile]. *)
Theorem X8_event_iteration_consumes_a_byte k st u st' :
  event_iteration k st = Ok (u, st') ->
  (bytes_pending st' < bytes_pending st)%nat.
Proof.
  intros H. pose proof (event_iteration_effect k st) as E.
  rewrite H in E. exact (proj1 E).
Qed.

Lemma X8_event_iteration_consumes_a_byte_witness :
  event_iteration 0 (first_track_state [x00; x3c; x40; x00; xff; x2f; x00])
  = Ok (tt, mkState (mkStream [x00] [x3c; x40; x00; xff; x2f; x00])
                    (mkTrack 0 0) 0 false [[]] [])
  /\ (bytes_pending (mkState (mkStream [x00] [x3c; x40; x00; xff; x2f; x00])
                             (mkTrack 0 0) 0 false [[]] [])
      < bytes_pending
          (first_track_state [x00; x3c; x40; x00; xff; x2f; x00]))%nat.
Proof.
  assert (H : event_iteration 0
                (first_track_state [x00; x3c; x40; x00; xff; x2f; x00])
              = Ok (tt, mkState (mkStream [x00] [x3c; x40; x00; xff; x2f; x00])
                                (mkTrack 0 0) 0 false [[]] []))
    by (vm_compute; reflexivity).
  split; [exact H|].
  exact (X8_event_iteration_consumes_a_byte _ _ _ _ H).
Defined.

(** ** The notes and the printed lines *)

Lemma printed_notes_app (l1 l2 : list Report) :
  printed_notes (l1 ++ l2) = printed_notes l1 ++ printed_notes l2.
Proof. unfold printed_notes. apply flat_map_app. Qed.

Lemma appends_refl k st : appends k st st.
Proof.
  exists []. split; [now rewrite app_nil_r|].
  cbn. now rewrite extend_at_nil.
Qed.

Lemma appends_same k st st' :
  out st' = out st -> trackNotes st' = trackNotes st -> appends k st st'.
Proof.
  intros Ho Hn. exists []. split; [now rewrite app_nil_r|].
  cbn. now rewrite extend_at_nil.
Qed.

Lemma appends_trans k st1 st2 st3 :
  appends k st1 st2 -> appends k st2 st3 -> appends k st1 st3.
Proof.
  intros (l1 & Ho1 & Hn1) (l2 & Ho2 & Hn2). exists (l1 ++ l2). split.
  - rewrite Ho2, Ho1. now rewrite app_assoc.
  - rewrite Hn2, Hn1, extend_at_app, printed_notes_app. reflexivity.
Qed.

Lemma push_back_at_some (i : nat) (n : Note) :
  forall v w, push_back_at i n v = Some w -> w = extend_at i [n] v.
Proof.
  induction i as [|i IH]; intros [|notes v] w H; simpl in *; try discriminate.
  - now inversion H.
  - destruct (push_back_at i n v) as [w'|] eqn:E; [|discriminate].
    inversion H. now rewrite (IH v w' E).
Qed.

Lemma appends_on_file k {A} (h : ifstream -> Res (A * ifstream)) :
  respects (appends k) any_stop (on_file h).
Proof.
  intros st. unfold on_file.
  destruct (h (file st)) as [[a s']|e]; [now apply appends_same | exact I].
Qed.

Lemma appends_cout k r :
  report_notes r = [] -> respects (appends k) any_stop (cout r).
Proof.
  intros Hr st. exists [r]. split; [reflexivity|].
  cbn. rewrite Hr. cbn. now rewrite extend_at_nil.
Qed.

Lemma appends_set_prevStatus k s :
  respects (appends k) any_stop (set_prevStatus s).
Proof. intros st. now apply appends_same. Qed.

Lemma appends_set_reachedEndOfTrack k b :
  respects (appends k) any_stop (set_reachedEndOfTrack b).
Proof. intros st. now apply appends_same. Qed.

Lemma appends_stuck k {A} e : respects (appends k) any_stop (@stuck A e).
Proof. intros st. exact I. Qed.

Lemma appends_resolve_status k : respects (appends k) any_stop resolve_status.
Proof.
  intros st. unfold resolve_status, bind, file_read, on_file.
  destruct (stream_read (file st)) as [[b s']|e]; [|exact I].
  destruct (u8 b <? 0x80); cbn; now apply appends_same.
Qed.

(** The two cases that push a note print its line first. *)
Lemma appends_note_case k (r : Report) (note : Note) :
  report_notes r = [note] ->
  respects (appends k) any_stop (cout r ;; trackNotes_push k note).
Proof.
  intros Hr st. unfold bind, cout, trackNotes_push. cbn.
  destruct (push_back_at k note (trackNotes st)) as [w|] eqn:E; [|exact I].
  exists [r]. split; [reflexivity|].
  cbn. rewrite Hr. cbn. now apply push_back_at_some.
Qed.

#[local] Hint Resolve appends_on_file appends_cout appends_set_prevStatus
  appends_set_reachedEndOfTrack appends_stuck appends_resolve_status
  appends_note_case : midi.

Ltac appends_steps :=
  repeat first
    [ solve [auto with midi]
    | solve [apply appends_cout; reflexivity]
    | solve [apply appends_note_case; reflexivity]
    | solve [unfold file_read, file_readVariableLengthData,
             file_readDefinedLengthData; apply appends_on_file]
    | apply respects_ret; exact (appends_refl _)
    | apply respects_bind; [exact (appends_trans _) | | intros ?]
    | match goal with
      | |- respects _ _ (if ?c then _ else _) => destruct c
      end ].

Lemma appends_dispatch k deltaTime status :
  respects (appends k) any_stop (dispatch k deltaTime status).
Proof.
  unfold dispatch, case_noteOff, case_noteOn, case_noteAfterTouch,
    case_controller, case_programChange, case_channelAfterTouch,
    case_pitchBend, case_metaEvent, meta_switch.
  appends_steps.
Qed.

Lemma appends_event_iteration k :
  respects (appends k) any_stop (event_iteration k).
Proof.
  unfold event_iteration.
  apply respects_bind; [exact (appends_trans _) | appends_steps | intros d].
  apply respects_bind; [exact (appends_trans _) | appends_steps | intros s].
  apply appends_dispatch.
Qed.

Lemma appends_event_loop fuel k :
  respects (appends k) any_stop (event_loop fuel k).
Proof.
  induction fuel as [|fuel IH]; intros st; cbn [event_loop].
  - destruct (reachedEndOfTrack st); [apply appends_refl | exact I].
  - destruct (reachedEndOfTrack st); [apply appends_refl|].
    apply (respects_bind (appends k) any_stop (appends_trans k));
      [apply appends_event_iteration | intros _; exact IH].
Qed.

Lemma extend_at_other (k j : nat) (ns : list Note) :
  forall v, j <> k -> nth j (extend_at k ns v) [] = nth j v [].
Proof.
  revert j. induction k as [|k IH]; intros j [|notes v] Hj; simpl;
    try reflexivity.
  - destruct j; [contradiction | reflexivity].
  - destruct j; [reflexivity | apply IH; lia].
Qed.

Lemma extend_at_same (k : nat) (ns : list Note) :
  forall v, (k < length v)%nat ->
            nth k (extend_at k ns v) [] = nth k v [] ++ ns.
Proof.
  induction k as [|k IH]; intros [|notes v] Hk; simpl in *; try lia.
  - reflexivity.
  - apply IH. lia.
Qed.

(** X9.  While the events of track [k] are decoded, on any bytes at all, the
    vector of notes of track [k] only grows at its end, by exactly the notes
    of the noteOff and noteOn lines printed meanwhile and in their order; the
    vectors of the other tracks and the number of vectors do not change. *)
Theorem X9_event_loop_appends_printed_notes fuel k st u st' :
  event_loop fuel k st = Ok (u, st') ->
  (k < length (trackNotes st))%nat ->
  exists lines,
    out st' = out st ++ lines
    /\ nth k (trackNotes st') [] = nth k (trackNotes st) [] ++ printed_notes lines
    /\ (forall j, j <> k -> nth j (trackNotes st') [] = nth j (trackNotes st) [])
    /\ length (trackNotes st') = length (trackNotes st).
Proof.
  intros H Hk. pose proof (appends_event_loop fuel k st) as E.
  rewrite H in E. destruct E as (lines & Hout & Hnotes).
  exists lines. rewrite Hnotes. split; [assumption|]. split; [|split].
  - now apply extend_at_same.
  - intros j Hj. now apply extend_at_other.
  - apply extend_at_length.
Qed.

Lemma X9_event_loop_appends_printed_notes_witness :
  event_loop 5 1 second_track_start = Ok (tt, second_track_end)
  /\ (1 < length (trackNotes second_track_start))%nat
  /\ exists lines,
      out second_track_end = out second_track_start ++ lines
      /\ nth 1 (trackNotes second_track_end) []
         = nth 1 (trackNotes second_track_start) [] ++ printed_notes lines
      /\ (forall j, j <> 1%nat ->
                    nth j (trackNotes second_track_end) []
                    = nth j (trackNotes second_track_start) [])
      /\ length (trackNotes second_track_end)
         = length (trackNotes second_track_start).
Proof.
  assert (H : event_loop 5 1 second_track_start = Ok (tt, second_track_end))
    by (vm_compute; reflexivity).
  assert (Hk : (1 < length (trackNotes second_track_start))%nat)
    by (cbn; lia).
  split; [exact H|]. split; [exact Hk|].
  exact (X9_event_loop_appends_printed_notes _ _ _ _ _ H Hk).
Defined.

(** ** What [doWork] keeps true on any file *)

Lemma track_begin_grows k st :
  match track_begin k st with
  | Ok (_, st') =>
      trackNotes st' = trackNotes st ++ [[]]
      /\ out st' = out st ++ [RTrackNumber k]
  | Fail e => True
  end.
Proof.
  destruct st as [f tc ps fl tn o].
  unfold track_begin, bind. cbn. unfold on_file. cbn.
  destruct (read_track_chunk f) as [[t f']|e]; [cbn; auto | exact I].
Qed.

Lemma extend_at_last_vector (v : list (list Note)) (x ns : list Note) :
  extend_at (length v) ns (v ++ [x]) = v ++ [x ++ ns].
Proof. induction v as [|y v IH]; simpl; [reflexivity | now rewrite IH]. Qed.

(** The notes collected so far are the notes of the lines printed so far. *)
Lemma one_track_in_step k st :
  k = length (trackNotes st) ->
  concat (trackNotes st) = printed_notes (out st) ->
  match one_track k st with
  | Ok (_, st') =>
      length (trackNotes st') = S k
      /\ concat (trackNotes st') = printed_notes (out st')
  | Fail e => True
  end.
Proof.
  intros Hk HJ. unfold one_track. unfold bind at 1.
  pose proof (track_begin_grows k st) as Hb.
  destruct (track_begin k st) as [[u st1]|e]; [|exact I].
  destruct Hb as [Htn Hout]. unfold bind, bytes_left.
  pose proof (appends_event_loop (S (length (pending (file st1)))) k st1) as Ha.
  destruct (event_loop _ k st1) as [[u' st']|e]; [|exact I].
  destruct Ha as (lines & Hout' & Htn').
  rewrite Htn, Hk, extend_at_last_vector in Htn'. cbn [app] in Htn'.
  rewrite Htn', Hout', Hout. split.
  - rewrite length_app. cbn [length]. lia.
  - rewrite concat_app, !printed_notes_app, HJ. cbn.
    now rewrite !app_nil_r.
Qed.

Lemma track_loop_in_step count :
  forall k st,
    k = length (trackNotes st) ->
    concat (trackNotes st) = printed_notes (out st) ->
    match track_loop count k st with
    | Ok (_, st') =>
        length (trackNotes st') = (k + count)%nat
        /\ concat (trackNotes st') = printed_notes (out st')
    | Fail e => True
    end.
Proof.
  induction count as [|count IH]; intros k st Hk HJ; cbn [track_loop].
  - cbn. split; [lia | assumption].
  - unfold bind. pose proof (one_track_in_step k st Hk HJ) as H1.
    destruct (one_track k st) as [[u st1]|e]; [|exact I].
    destruct H1 as [Hlen HJ1].
    specialize (IH (S k) st1 (eq_sym Hlen) HJ1).
    destruct (track_loop count (S k) st1) as [[u' st']|e]; [|exact I].
    destruct IH as [Hlen' HJ']. split; [lia | assumption].
Qed.

Lemma acquireHeaderData_ntrks (bytes : list byte) h f :
  acquireHeaderData (open bytes) = Ok (h, f) ->
  h_ntrks h = header_ntrks bytes.
Proof.
  unfold open. intros H.
  do 14 (destruct bytes as [|? bytes]; [discriminate H|]).
  cbn in H. inversion H. reflexivity.
Qed.

Lemma doWork_in_step (bytes : list byte) (st : State) :
  doWork bytes = Ok st ->
  length (trackNotes st) = Z.to_nat (header_ntrks bytes)
  /\ concat (trackNotes st) = printed_notes (out st).
Proof.
  unfold doWork.
  destruct (acquireHeaderData (open bytes)) as [[h f]|e] eqn:Hh;
    [|discriminate].
  rewrite (acquireHeaderData_ntrks bytes h f Hh).
  unfold bind at 1. cbn [cout file track_chunk prevStatus reachedEndOfTrack
                          trackNotes out app].
  unfold bind.
  match goal with
  | |- context [track_loop ?n 0 ?s] =>
      pose proof (track_loop_in_step n 0%nat s eq_refl eq_refl) as H;
      destruct (track_loop n 0 s) as [[u st1]|e]
  end; [|discriminate].
  destruct H as [Hlen HJ]. cbn. intros Heq. inversion Heq. subst st. cbn.
  split; [exact Hlen|].
  rewrite printed_notes_app, HJ. cbn. now rewrite app_nil_r.
Qed.

(** X10.  Whenever [doWork] runs to its end, on any file, [getTrackNotes]
    holds exactly as many vectors as the header announces tracks (the
    big-endian number in bytes 10 and 11 of the file), empty vectors
    included. *)
Theorem X10_getTrackNotes_has_one_vector_per_track
        (bytes : list byte) (st : State) :
  doWork bytes = Ok st ->
  Z.of_nat (length (getTrackNotes st))
  = u8 (nth 10 bytes x00) * 256 + u8 (nth 11 bytes x00).
Proof.
  intros H. destruct (doWork_in_step bytes st H) as [Hlen _].
  unfold getTrackNotes. rewrite Hlen, <- header_ntrks_big_endian.
  rewrite Z2Nat.id; [reflexivity|].
  rewrite header_ntrks_big_endian.
  pose proof (u8_range (nth 10 bytes x00)).
  pose proof (u8_range (nth 11 bytes x00)). lia.
Qed.

Lemma X10_getTrackNotes_has_one_vector_per_track_witness :
  exists st,
    doWork sample_file = Ok st
    /\ Z.of_nat (length (getTrackNotes st))
       = u8 (nth 10 sample_file x00) * 256 + u8 (nth 11 sample_file x00)
    /\ length (getTrackNotes st) = 2%nat.
Proof.
  assert (H : exists st, doWork sample_file = Ok st
                         /\ length (getTrackNotes st) = 2%nat).
  { eexists. split; [vm_compute; reflexivity | reflexivity]. }
  destruct H as (st & Hrun & Hlen).
  exists st. split; [exact Hrun|]. split; [|exact Hlen].
  exact (X10_getTrackNotes_has_one_vector_per_track sample_file st Hrun).
Defined.

(** X11.  Whenever [doWork] runs to its end, on any file, the notes returned
    by [getTrackNotes], track after track, are exactly the notes of the
    noteOff and noteOn lines that were printed, in the order of the lines:
    no note is stored without its line and no such line is printed without
    its note. *)
Theorem X11_getTrackNotes_agrees_with_printed_lines
        (bytes : list byte) (st : State) :
  doWork bytes = Ok st ->
  concat (getTrackNotes st) = printed_notes (out st).
Proof. intros H. exact (proj2 (doWork_in_step bytes st H)). Qed.

Lemma X11_getTrackNotes_agrees_with_printed_lines_witness :
  exists st,
    doWork (sample_header x02 ++ two_chunks) = Ok st
    /\ concat (getTrackNotes st) = printed_notes (out st)
    /\ concat (getTrackNotes st) = [mkNote 60 true].
Proof.
  assert (H : exists st, doWork (sample_header x02 ++ two_chunks) = Ok st
                         /\ concat (getTrackNotes st) = [mkNote 60 true]).
  { eexists. split; [vm_compute; reflexivity | reflexivity]. }
  destruct H as (st & Hrun & Hnotes).
  exists st. split; [exact Hrun|]. split; [|exact Hnotes].
  exact (X11_getTrackNotes_agrees_with_printed_lines _ st Hrun).
Defined.

(** ** The recorded status *)

Lemma resolve_status_value st :
  match resolve_status st with
  | Ok (s, st') =>
      prevStatus st' = prevStatus st
      /\ (s = prevStatus st \/ 0x80 <= s <= 0xFF)
  | Fail e => True
  end.
Proof.
  destruct st as [[before [|b rest]] tc ps fl tn o]; [exact I|].
  unfold resolve_status.
  rewrite (bind_ok _ _ _ _ _ (file_read_ok _ _ _ _ _ _ _ _)).
  pose proof (u8_range b).
  destruct (Z.ltb_spec (u8 b) 0x80); cbn; split; auto; right; lia.
Qed.

Lemma dispatch_prevStatus k deltaTime status st :
  match dispatch k deltaTime status st with
  | Ok (_, st') => prevStatus st' = prevStatus st \/ prevStatus st' = status
  | Fail e => True
  end.
Proof.
  assert (Hv : forall (m : M unit),
             respects calm not_fuel m ->
             match (set_prevStatus status ;; m) st with
             | Ok (_, st') =>
                 prevStatus st' = prevStatus st \/ prevStatus st' = status
             | Fail e => True
             end).
  { intros m Hm.
    pose proof (after_set_prevStatus status m not_fuel Hm st) as H.
    destruct (bind _ _ st) as [[u st']|e]; [|exact I].
    right. exact (proj1 H). }
  unfold dispatch.
  repeat match goal with
         | |- match (if ?c then _ else _) st with _ => _ end =>
             destruct c eqn:?
         end;
    try solve [apply Hv; respects_steps].
  - pose proof (case_metaEvent_effect status st) as H.
    destruct (case_metaEvent status st) as [[u st']|e]; [|exact I].
    right. exact (proj1 H).
  - cbn. now left.
Qed.

(** X12.  The running status is never a data byte: if [prevStatus] is its
    initial 0 or a byte with bit 7 set before a pass of the event loop, it is
    so after the pass, whatever bytes the pass reads. *)
Theorem X12_prevStatus_is_never_a_data_byte k st u st' :
  event_iteration k st = Ok (u, st') ->
  status_recorded st ->
  status_recorded st'.
Proof.
  unfold status_recorded. intros H Hst. unfold event_iteration in H.
  unfold bind at 1 in H.
  pose proof (respects_file_readVariableLengthData st) as Hd.
  destruct (file_readVariableLengthData st) as [[d st1]|e]; [|discriminate].
  destruct Hd as [[Hps1 _] _].
  unfold bind in H.
  pose proof (resolve_status_value st1) as Hr.
  destruct (resolve_status st1) as [[s st2]|e]; [|discriminate].
  destruct Hr as [Hps2 Hs].
  pose proof (dispatch_prevStatus k d s st2) as Hp. rewrite H in Hp.
  destruct Hp as [Hp | Hp]; rewrite Hp.
  - rewrite Hps2, Hps1. exact Hst.
  - destruct Hs as [-> | Hs]; [rewrite Hps1; exact Hst | now right].
Qed.

Lemma X12_prevStatus_is_never_a_data_byte_witness :
  event_iteration 0 (first_track_state [x00; x90; x3c; x40; x00; xff; x2f; x00])
  = Ok (tt, mkState (mkStream [x40; x3c; x90; x00] [x00; xff; x2f; x00])
                    (mkTrack 0 0) 0x90 false [[mkNote 60 true]]
                    [RNoteOn 60 64 0])
  /\ status_recorded
       (first_track_state [x00; x90; x3c; x40; x00; xff; x2f; x00])
  /\ status_recorded
       (mkState (mkStream [x40; x3c; x90; x00] [x00; xff; x2f; x00])
                (mkTrack 0 0) 0x90 false [[mkNote 60 true]]
                [RNoteOn 60 64 0]).
Proof.
  assert (H : event_iteration 0
                (first_track_state [x00; x90; x3c; x40; x00; xff; x2f; x00])
              = Ok (tt, mkState (mkStream [x40; x3c; x90; x00]
                                          [x00; xff; x2f; x00])
                                (mkTrack 0 0) 0x90 false [[mkNote 60 true]]
                                [RNoteOn 60 64 0]))
    by (vm_compute; reflexivity).
  assert (H0 : status_recorded
                 (first_track_state [x00; x90; x3c; x40; x00; xff; x2f; x00]))
    by (left; reflexivity).
  split; [exact H|]. split; [exact H0|].
  exact (X12_prevStatus_is_never_a_data_byte _ _ _ _ H H0).
Defined.

(** ** The channel of a channel event *)

(** X13.  The low nibble of the status byte, the MIDI channel, plays no part
    in decoding a channel event: two status bytes of the same family (0x8 to
    0xE) make the pass read the same bytes, print the same lines and push the
    same note, and differ only in the byte that is left in [prevStatus].  The
    notes of all sixteen channels of a track end up in the one vector of the
    track. *)
Theorem X13_channel_is_ignored k deltaTime status status' st :
  Z.shiftr status 4 = Z.shiftr status' 4 ->
  EventType.noteOff <= Z.shiftr status 4 <= EventType.pitchBend ->
  dispatch k deltaTime status' st
  = match dispatch k deltaTime status st with
    | Ok (u, st1) => Ok (u, with_prevStatus status' st1)
    | Fail e => Fail e
    end.
Proof.
  intros Hfam Hrange. unfold dispatch. rewrite <- Hfam.
  cbv [EventType.noteOff EventType.noteOn EventType.noteAfterTouch
       EventType.controller EventType.programChange
       EventType.channelAfterTouch EventType.pitchBend EventType.metaEvent]
    in *.
  destruct st as [[before p] tc ps fl tn o].
  repeat match goal with
         | |- context [if ?a =? ?b then _ else _] =>
             destruct (Z.eqb_spec a b)
         end;
    try lia;
    unfold case_noteOff, case_noteOn, case_noteAfterTouch,
      case_controller, case_programChange, case_channelAfterTouch,
      case_pitchBend, bind, trackNotes_push;
    destruct p as [|a [|b p]]; cbn;
    try destruct (push_back_at k _ tn); reflexivity.
Qed.

Lemma X13_channel_is_ignored_witness :
  Z.shiftr 0x90 4 = Z.shiftr 0x9F 4
  /\ EventType.noteOff <= Z.shiftr 0x90 4 <= EventType.pitchBend
  /\ dispatch 0 0 0x9F (first_track_state [x3c; x40; x00])
     = match dispatch 0 0 0x90 (first_track_state [x3c; x40; x00]) with
       | Ok (u, st1) => Ok (u, with_prevStatus 0x9F st1)
       | Fail e => Fail e
       end.
Proof.
  assert (H1 : Z.shiftr 0x90 4 = Z.shiftr 0x9F 4) by reflexivity.
  assert (H2 : EventType.noteOff <= Z.shiftr 0x90 4 <= EventType.pitchBend)
    by (vm_compute; split; discriminate).
  split; [exact H1|]. split; [exact H2|].
  exact (X13_channel_is_ignored 0 0 0x90 0x9F _ H1 H2).
Defined.

(** ** Files without tracks *)

(** X14.  When the header announces no track, [doWork] reads the 14 bytes of
    the header and nothing else: it returns no vector of notes and prints the
    banner and the closing line only, whatever follows the header. *)
Theorem X14_doWork_without_tracks (head rest : list byte) :
  length head = 14%nat ->
  header_ntrks head = 0 ->
  doWork (head ++ rest)
  = Ok (mkState (mkStream (rev head) rest) (mkTrack 0 0) 0 false []
                [RParserBanner 0; RAllTracksProcessed]).
Proof.
  intros Hlen Hn. unfold doWork, open.
  destruct (acquireHeaderData_ok head [] rest Hlen) as (h & Hh & Hntrks).
  rewrite Hh, Hntrks, Hn, app_nil_r. reflexivity.
Qed.

Lemma X14_doWork_without_tracks_witness :
  length (sample_header x00) = 14%nat
  /\ header_ntrks (sample_header x00) = 0
  /\ doWork (sample_header x00 ++ sample_chunk_head x04 ++ [x00; xff; x2f; x00])
     = Ok (mkState (mkStream (rev (sample_header x00))
                             (sample_chunk_head x04 ++ [x00; xff; x2f; x00]))
                   (mkTrack 0 0) 0 false []
                   [RParserBanner 0; RAllTracksProcessed]).
Proof.
  split; [reflexivity|]. split; [reflexivity|].
  exact (X14_doWork_without_tracks (sample_header x00)
           (sample_chunk_head x04 ++ [x00; xff; x2f; x00]) eq_refl eq_refl).
Defined.

(** ** Declared lengths that the decoder does not use *)

(** X15.  The end-of-track event ends the loop whatever length it declares:
    the length is read and dropped, and if it is not zero the bytes it
    announces are left unread behind the cursor. *)
Theorem X15_end_of_track_ignores_declared_length
        fuel k ds ls before rest tc ps tn o :
  is_vlq ds = true ->
  is_vlq ls = true ->
  event_loop (S fuel) k
    (mkState (mkStream before (ds ++ xff :: x2f :: ls ++ rest)) tc ps false tn o)
  = Ok (tt, mkState (mkStream (rev ls ++ x2f :: xff :: rev ds ++ before) rest)
                    tc 0xFF true tn (o ++ [REndOfTrack])).
Proof.
  intros Hds Hls. rewrite event_loop_step.
  assert (Hstep :
    event_iteration k
      (mkState (mkStream before (ds ++ xff :: x2f :: ls ++ rest))
               tc ps false tn o)
    = Ok (tt, mkState (mkStream (rev ls ++ x2f :: xff :: rev ds ++ before) rest)
                      tc 0xFF true tn (o ++ [REndOfTrack]))).
  { unfold event_iteration.
    rewrite (bind_ok _ _ _ _ _
               (file_readVariableLengthData_ok _ _ _ _ _ _ _ _ Hds)).
    rewrite (bind_ok _ _ _ _ _
               (resolve_status_explicit _ xff _ _ _ _ _ _
                  ltac:(vm_compute; discriminate))).
    change (u8 xff) with 255.
    unfold dispatch. change (Z.shiftr 255 4) with 15. cbn.
    unfold case_metaEvent. cbn. unfold with_file. cbn.
    rewrite (bind_ok _ _ _ _ _
               (file_readVariableLengthData_ok _ _ _ _ _ _ _ _ Hls)).
    reflexivity. }
  rewrite (bind_ok _ _ _ _ _ Hstep). apply event_loop_done.
Qed.

Lemma X15_end_of_track_ignores_declared_length_witness :
  is_vlq [x00] = true
  /\ is_vlq [x02] = true
  /\ event_loop 9 0
       (mkState (mkStream [] ([x00] ++ xff :: x2f :: [x02] ++ [xaa; xbb; x00]))
                (mkTrack 0 0) 0 false [[]] [])
     = Ok (tt, mkState (mkStream (rev [x02] ++ x2f :: xff :: rev [x00] ++ [])
                                 [xaa; xbb; x00])
                       (mkTrack 0 0) 0xFF true [[]] ([] ++ [REndOfTrack])).
Proof.
  split; [reflexivity|]. split; [reflexivity|].
  exact (X15_end_of_track_ignores_declared_length 8 0 [x00] [x02] []
           [xaa; xbb; x00] (mkTrack 0 0) 0 [[]] [] eq_refl eq_refl).
Defined.

(** ** System exclusive events *)

(** X16.  After the status byte 0xF0 or 0xF7 the decoder takes one byte as a
    type and drops it, reads a variable-length length, and skips that many
    bytes: the payload yields no note and no event, whatever its bytes are,
    and the status byte stays in [prevStatus]. *)
Theorem X16_sysex_payload_is_skipped
        k ds s type ls payload before rest tc ps fl tn o :
  is_vlq ds = true ->
  is_vlq ls = true ->
  vlq_value ls = payload_length payload ->
  u8 s = 0xF0 \/ u8 s = 0xF7 ->
  event_iteration k
    (mkState (mkStream before (ds ++ s :: type :: ls ++ payload ++ rest))
             tc ps fl tn o)
  = Ok (tt, mkState
              (mkStream (rev payload ++ rev ls ++ type :: s :: rev ds ++ before)
                        rest)
              tc (u8 s) fl tn
              (o ++ [if u8 s =? 0xF0 then RSysexBegin else RSysexEnd])).
Proof.
  intros Hds Hls Hlen Hs. unfold event_iteration.
  rewrite (bind_ok _ _ _ _ _
             (file_readVariableLengthData_ok _ _ _ _ _ _ _ _ Hds)).
  rewrite (bind_ok _ _ _ _ _
             (resolve_status_explicit _ s _ _ _ _ _ _ ltac:(lia))).
  pose proof (u8_range s).
  rewrite dispatch_metaEvent by (apply meta_family; lia).
  assert (Hrun : forall r,
    (type0 <- file_read ;;
     length <- file_readVariableLengthData ;;
     text <- file_readDefinedLengthData length ;;
     cout r)
      (mkState (mkStream (s :: rev ds ++ before)
                         (type :: ls ++ payload ++ rest))
               tc (u8 s) fl tn o)
    = Ok (tt, mkState
                (mkStream (rev payload ++ rev ls ++ type :: s :: rev ds ++ before)
                          rest)
                tc (u8 s) fl tn (o ++ [r]))).
  { intros r.
    rewrite (bind_ok _ _ _ _ _ (file_read_ok _ _ _ _ _ _ _ _)).
    rewrite (bind_ok _ _ _ _ _
               (file_readVariableLengthData_ok _ _ _ _ _ _ _ _ Hls)).
    rewrite Hlen.
    rewrite (bind_ok _ _ _ _ _
               (file_readDefinedLengthData_ok _ _ _ _ _ _ _ _)).
    reflexivity. }
  unfold case_metaEvent, bind at 1. cbn.
  destruct Hs as [E | E]; rewrite E in Hrun |- *; cbn; apply Hrun.
Qed.

Lemma X16_sysex_payload_is_skipped_witness :
  is_vlq [x00] = true
  /\ is_vlq [x03] = true
  /\ vlq_value [x03] = payload_length [x90; x3c; x40]
  /\ event_iteration 0
       (mkState (mkStream [] ([x00] ++ xf0 :: x7e :: [x03] ++ [x90; x3c; x40]
                                ++ [x00; xff; x2f; x00]))
                (mkTrack 0 0) 0x90 false [[]] [])
     = Ok (tt, mkState
                 (mkStream (rev [x90; x3c; x40] ++ rev [x03]
                              ++ x7e :: xf0 :: rev [x00] ++ [])
                           [x00; xff; x2f; x00])
                 (mkTrack 0 0) (u8 xf0) false [[]]
                 ([] ++ [if u8 xf0 =? 0xF0 then RSysexBegin else RSysexEnd])).
Proof.
  split; [reflexivity|]. split; [reflexivity|]. split; [reflexivity|].
  exact (X16_sysex_payload_is_skipped 0 [x00] xf0 x7e [x03] [x90; x3c; x40] []
           [x00; xff; x2f; x00] (mkTrack 0 0) 0x90 false [[]] []
           eq_refl eq_refl eq_refl (or_introl eq_refl)).
Defined.

(** ** The printed report of a well-formed file *)






(** X18.  For the meta-events whose [case] reads a fixed number of bytes
    (sequence number, channel prefix, set tempo, SMPTE offset, time and key
    signature) the declared length is read and not used: the pass takes the
    fixed number of payload bytes whatever length the event declares. *)
Theorem X18_fixed_size_meta_ignores_declared_length
        k ds type ls payload before rest tc ps fl tn o :
  is_vlq ds = true ->
  is_vlq ls = true ->
  is_text_type (u8 type) = false ->
  u8 type <> MetaEventType.sequencerSpecific ->
  meta_payload_ok (u8 type) payload = true ->
  event_iteration k
    (mkState (mkStream before (ds ++ xff :: type :: ls ++ payload ++ rest))
             tc ps fl tn o)
  = Ok (tt, mkState
              (mkStream (rev payload ++ rev ls ++ type :: xff :: rev ds ++ before)
                        rest)
              tc 0xFF fl tn (o ++ meta_reports (u8 type) payload)).
Proof.
  intros Hds Hls Htext Hseq Hok. unfold event_iteration.
  rewrite (bind_ok _ _ _ _ _
             (file_readVariableLengthData_ok _ _ _ _ _ _ _ _ Hds)).
  rewrite (bind_ok _ _ _ _ _
             (resolve_status_explicit _ xff _ _ _ _ _ _
                ltac:(vm_compute; discriminate))).
  change (u8 xff) with 255.
  unfold dispatch. change (Z.shiftr 255 4) with 15. cbn.
  unfold case_metaEvent. cbn. unfold with_file. cbn.
  rewrite (bind_ok _ _ _ _ _
             (file_readVariableLengthData_ok _ _ _ _ _ _ _ _ Hls)).
  rewrite <- (meta_switch_ok (u8 type) payload _ rest tc 255 fl tn o Hok).
  apply Z.eqb_neq in Hseq.
  unfold meta_switch. rewrite Htext, Hseq. reflexivity.
Qed.

Lemma X18_fixed_size_meta_ignores_declared_length_witness :
  is_vlq [x00] = true
  /\ is_vlq [x09] = true
  /\ meta_payload_ok (u8 x58) [x06; x03; x18; x08] = true
  /\ event_iteration 0
       (mkState (mkStream [] ([x00] ++ xff :: x58 :: [x09]
                                ++ [x06; x03; x18; x08] ++ [x00; xff; x2f; x00]))
                (mkTrack 0 0) 0 false [[]] [])
     = Ok (tt, mkState
                 (mkStream (rev [x06; x03; x18; x08] ++ rev [x09]
                              ++ x58 :: xff :: rev [x00] ++ [])
                           [x00; xff; x2f; x00])
                 (mkTrack 0 0) 0xFF false [[]]
                 ([] ++ meta_reports (u8 x58) [x06; x03; x18; x08])).
Proof.
  split; [reflexivity|]. split; [reflexivity|]. split; [reflexivity|].
  apply (X18_fixed_size_meta_ignores_declared_length 0 [x00] x58 [x09]
           [x06; x03; x18; x08] [] [x00; xff; x2f; x00]);
    try reflexivity.
  vm_compute. discriminate.
Defined.

(** ** The only way out of the event loop *)

Lemma meta_switch_end type length st :
  match meta_switch type length st with
  | Ok (_, st') =>
      reachedEndOfTrack st' = reachedEndOfTrack st
      \/ (reachedEndOfTrack st' = true /\ out st' = out st ++ [REndOfTrack])
  | Fail e => True
  end.
Proof.
  unfold meta_switch.
  repeat match goal with
         | |- match (if ?c then _ else _) st with _ => _ end => destruct c
         end;
    try (match goal with
         | |- match ?m st with _ => _ end =>
             let H := fresh in
             assert (H : respects calm input_fault m) by respects_steps;
             specialize (H st);
             destruct (m st) as [[u st']|e]; [left; exact (proj2 H) | exact I]
         end).
  - destruct st as [f tc ps fl tn o]. cbn. right. split; reflexivity.
  - match goal with
    | |- match ?m st with _ => _ end =>
        assert (H : respects calm input_fault m)
    end.
    { repeat (apply respects_bind;
              [exact calm_trans | apply respects_file_read | intros ?]).
      destruct (_ =? 0); [intros s; now right | apply respects_cout]. }
    specialize (H st).
    destruct (bind _ _ st) as [[u st']|e]; [left; exact (proj2 H) | exact I].
Qed.

Lemma resolve_status_keeps st :
  match resolve_status st with
  | Ok (_, st') =>
      out st' = out st /\ reachedEndOfTrack st' = reachedEndOfTrack st
  | Fail e => True
  end.
Proof.
  destruct st as [[before [|b rest]] tc ps fl tn o]; [exact I|].
  unfold resolve_status.
  rewrite (bind_ok _ _ _ _ _ (file_read_ok _ _ _ _ _ _ _ _)).
  destruct (u8 b <? 0x80); cbn; split; reflexivity.
Qed.

Lemma case_metaEvent_end status st :
  match case_metaEvent status st with
  | Ok (_, st') =>
      reachedEndOfTrack st' = reachedEndOfTrack st
      \/ (reachedEndOfTrack st' = true /\ out st' = out st ++ [REndOfTrack])
  | Fail e => True
  end.
Proof.
  destruct (Z.eq_dec status 0xFF) as [-> | Hne].
  - destruct st as [f tc ps fl tn o].
    unfold case_metaEvent, bind, file_read, file_readVariableLengthData,
      on_file. cbn.
    destruct (stream_read f) as [[b f1]|e]; [|exact I]. cbn.
    destruct (readVariableLengthData f1) as [[len f2]|e]; [|exact I]. cbn.
    apply (meta_switch_end (u8 b) len (mkState f2 tc 255 fl tn o)).
  - pose proof (case_metaEvent_effect status st) as H.
    destruct (case_metaEvent status st) as [[u st']|e]; [|exact I].
    left. now apply H.
Qed.

Lemma dispatch_end k deltaTime status st :
  match dispatch k deltaTime status st with
  | Ok (_, st') =>
      reachedEndOfTrack st' = reachedEndOfTrack st
      \/ (reachedEndOfTrack st' = true /\ out st' = out st ++ [REndOfTrack])
  | Fail e => True
  end.
Proof.
  assert (Hv : forall (m : M unit),
             respects calm not_fuel m ->
             match (set_prevStatus status ;; m) st with
             | Ok (_, st') =>
                 reachedEndOfTrack st' = reachedEndOfTrack st
                 \/ (reachedEndOfTrack st' = true
                     /\ out st' = out st ++ [REndOfTrack])
             | Fail e => True
             end).
  { intros m Hm.
    pose proof (after_set_prevStatus status m not_fuel Hm st) as H.
    destruct (bind _ _ st) as [[u st']|e]; [|exact I].
    left. now apply H. }
  unfold dispatch.
  repeat match goal with
         | |- match (if ?c then _ else _) st with _ => _ end =>
             destruct c eqn:?
         end;
    try solve [apply Hv; respects_steps].
  - apply case_metaEvent_end.
  - cbn. now left.
Qed.

Lemma event_iteration_end k st :
  match event_iteration k st with
  | Ok (_, st') =>
      reachedEndOfTrack st' = reachedEndOfTrack st
      \/ (reachedEndOfTrack st' = true /\ out st' = out st ++ [REndOfTrack])
  | Fail e => True
  end.
Proof.
  unfold event_iteration. unfold bind at 1.
  unfold file_readVariableLengthData at 1, on_file.
  destruct (readVariableLengthData (file st)) as [[d s1]|e]; [|exact I].
  unfold bind.
  pose proof (resolve_status_keeps (with_file s1 st)) as Hr.
  destruct (resolve_status (with_file s1 st)) as [[s st2]|e]; [|exact I].
  destruct Hr as [Ho Hf]. cbn in Ho, Hf.
  pose proof (dispatch_end k d s st2) as Hp.
  destruct (dispatch k d s st2) as [[u st3]|e]; [|exact I].
  rewrite Ho, Hf in Hp. exact Hp.
Qed.

Lemma event_loop_end fuel k :
  forall st,
    match event_loop fuel k st with
    | Ok (_, st') =>
        reachedEndOfTrack st = true
        \/ exists lines, out st' = out st ++ lines ++ [REndOfTrack]
    | Fail e => True
    end.
Proof.
  induction fuel as [|fuel IH]; intros st; cbn [event_loop].
  - destruct (reachedEndOfTrack st); [now left | exact I].
  - destruct (reachedEndOfTrack st) eqn:Hfl; [now left|].
    unfold bind.
    pose proof (event_iteration_end k st) as He.
    pose proof (appends_event_iteration k st) as Ha.
    destruct (event_iteration k st) as [[u st1]|e]; [|exact I].
    destruct Ha as (l1 & Hout1 & _).
    specialize (IH st1).
    destruct (reachedEndOfTrack st1) eqn:Hfl1.
    + rewrite event_loop_stop in * by assumption. right.
      destruct He as [He | [_ He]]; [congruence|].
      exists []. exact He.
    + destruct (event_loop fuel k st1) as [[u' st']|e]; [|exact I].
      destruct IH as [IH | (l & Hl)]; [discriminate|].
      right. exists (l1 ++ l). rewrite Hl, Hout1.
      now rewrite <- !app_assoc.
Qed.

(** X19.  The event loop of a track ends in one way only: through an
    end-of-track meta-event.  Whenever the loop ends, the last line printed
    is the end-of-track line and [prevStatus] holds 0xFF; the declared length
    of the chunk never ends it. *)
Theorem X19_event_loop_ends_only_at_end_of_track fuel k st u st' :
  event_loop fuel k st = Ok (u, st') ->
  reachedEndOfTrack st = false ->
  reachedEndOfTrack st' = true
  /\ prevStatus st' = 0xFF
  /\ exists lines, out st' = out st ++ lines ++ [REndOfTrack].
Proof.
  intros H Hfl.
  pose proof (event_loop_effect fuel k st) as E1. rewrite H in E1.
  pose proof (event_loop_end fuel k st) as E2. rewrite H in E2.
  destruct E1 as [Hend Hps]. split; [assumption|]. split; [auto|].
  destruct E2 as [E2 | E2]; [congruence | assumption].
Qed.

Lemma X19_event_loop_ends_only_at_end_of_track_witness :
  event_loop 5 1 second_track_start = Ok (tt, second_track_end)
  /\ reachedEndOfTrack second_track_start = false
  /\ reachedEndOfTrack second_track_end = true
  /\ prevStatus second_track_end = 0xFF
  /\ exists lines,
      out second_track_end = out second_track_start ++ lines ++ [REndOfTrack].
Proof.
  assert (H : event_loop 5 1 second_track_start = Ok (tt, second_track_end))
    by (vm_compute; reflexivity).
  split; [exact H|]. split; [reflexivity|].
  exact (X19_event_loop_ends_only_at_end_of_track _ _ _ _ _ H eq_refl).
Defined.

(** ** Data bytes of note events *)

(** X20.  A noteOff or noteOn event with its own status byte takes the two
    bytes after the status byte as note number and velocity without looking
    at them: bytes of 0x80 and above are stored and printed like any other,
    and a byte that looks like a status byte is not taken for one. *)
Theorem X20_note_data_bytes_are_not_checked
        k ds s a b before rest tc ps fl tn o :
  is_vlq ds = true ->
  Z.shiftr (u8 s) 4 = EventType.noteOff \/ Z.shiftr (u8 s) 4 = EventType.noteOn ->
  (k < length tn)%nat ->
  event_iteration k
    (mkState (mkStream before (ds ++ s :: a :: b :: rest)) tc ps fl tn o)
  = Ok (tt, mkState (mkStream (b :: a :: s :: rev ds ++ before) rest)
                    tc (u8 s) fl
                    (extend_at k
                       [mkNote (u8 a) (Z.shiftr (u8 s) 4 =? EventType.noteOn)]
                       tn)
                    (o ++ [if Z.shiftr (u8 s) 4 =? EventType.noteOn
                           then RNoteOn (u8 a) (u8 b) (vlq_value ds)
                           else RNoteOff (u8 a) (u8 b) (vlq_value ds)])).
Proof.
  intros Hds Hfam Hk. pose proof (u8_range s) as Hr.
  assert (Hs : 0x80 <= u8 s < 0xF0).
  { assert (H8 : 8 <= Z.shiftr (u8 s) 4 <= 9)
      by (cbv [EventType.noteOff EventType.noteOn] in Hfam; lia).
    rewrite Z.shiftr_div_pow2 in H8 by lia.
    change (2 ^ 4) with 16 in H8. Z.div_mod_to_equations. lia. }
  unfold event_iteration.
  rewrite (bind_ok _ _ _ _ _
             (file_readVariableLengthData_ok _ _ _ _ _ _ _ _ Hds)).
  rewrite (bind_ok _ _ _ _ _
             (resolve_status_explicit _ s _ _ _ _ _ _ (proj1 Hs))).
  change (a :: b :: rest) with ([a; b] ++ rest).
  rewrite (dispatch_voice k (vlq_value ds) s [a; b] false); try assumption.
  - cbn [rev app event_notes event_reports].
    destruct Hfam as [E | E]; rewrite E; reflexivity.
  - unfold voice_data_length. destruct Hfam as [E | E]; rewrite E; reflexivity.
Qed.

Lemma X20_note_data_bytes_are_not_checked_witness :
  is_vlq [x00] = true
  /\ Z.shiftr (u8 x90) 4 = EventType.noteOn
  /\ event_iteration 0
       (mkState (mkStream [] ([x00] ++ x90 :: xff :: x90 :: [x00; xff; x2f; x00]))
                (mkTrack 0 0) 0 false [[]] [])
     = Ok (tt, mkState (mkStream (x90 :: xff :: x90 :: rev [x00] ++ [])
                                 [x00; xff; x2f; x00])
                       (mkTrack 0 0) (u8 x90) false
                       (extend_at 0
                          [mkNote (u8 xff)
                                  (Z.shiftr (u8 x90) 4 =? EventType.noteOn)]
                          [[]])
                       ([] ++ [if Z.shiftr (u8 x90) 4 =? EventType.noteOn
                               then RNoteOn (u8 xff) (u8 x90) (vlq_value [x00])
                               else RNoteOff (u8 xff) (u8 x90)
                                             (vlq_value [x00])])).
Proof.
  split; [reflexivity|]. split; [reflexivity|].
  apply (X20_note_data_bytes_are_not_checked 0 [x00] x90 xff x90 []
           [x00; xff; x2f; x00] (mkTrack 0 0) 0 false [[]] []).
  - reflexivity.
  - right. reflexivity.
  - cbn. lia.
Defined.

(** ** The notes of the tracks that the decoder frames *)

(** X21.  For a file made of a 14-byte header announcing as many tracks as
    follow, and of track chunks whose events are all laid out as the decoder
    frames them (channel events with explicit or running status, meta-events
    of the types that the [switch] has a [case] for, with the payload that
    the [case] reads and, for set tempo, bytes that do not make line 386
    divide by zero, system exclusive events with the byte that the code reads
    before the length), [doWork] ends normally and [getTrackNotes] gives, for
    every track, one note per noteOff or noteOn event of the track, in the
    order of the events; the note is on exactly when the family of the event
    is 0x9, whatever the velocity, zero included.  Tracks with a meta-event
    of another type are not among these (C2, C3). *)
Theorem X21_notes_of_the_tracks_the_decoder_frames head tracks rest :
  length head = 14%nat ->
  Z.to_nat (header_ntrks head) = length tracks ->
  forallb wf_chunk tracks = true ->
  (exists st,
      doWork (head ++ flat_map chunk_bytes tracks ++ rest) = Ok st
      /\ getTrackNotes st
         = map (fun t => map note_of
                             (filter is_note_event (map snd (chunk_events t))))
               tracks)
  /\ (forall status n velocity elided,
         on (note_of (Voice status [n; velocity] elided))
         = (Z.shiftr (u8 status) 4 =? EventType.noteOn))
  /\ (forall status n elided,
         Z.shiftr (u8 status) 4 = EventType.noteOn ->
         note_of (Voice status [n; x00] elided) = mkNote (u8 n) true).
Proof.
  intros Hhead Hn Hwf. split; [|split].
  - destruct (doWork_chunks head tracks rest Hhead Hn Hwf)
      as (st & Hrun & Hnotes & _).
    exists st. split; [assumption|]. rewrite Hnotes.
    apply map_ext_in. intros t Ht.
    apply track_notes_by_event with (ps := 0).
    rewrite forallb_forall in Hwf. specialize (Hwf t Ht).
    unfold wf_chunk in Hwf.
    apply andb_prop in Hwf as [Hwf _]. now apply andb_prop in Hwf as [_ Hwf].
  - reflexivity.
  - intros status n elided H. cbn [note_of]. now rewrite H.
Qed.

Lemma X21_notes_of_the_tracks_the_decoder_frames_witness :
  length (sample_header x02) = 14%nat
  /\ Z.to_nat (header_ntrks (sample_header x02)) = length sample_tracks
  /\ forallb wf_chunk sample_tracks = true
  /\ exists st,
      doWork sample_file = Ok st
      /\ getTrackNotes st
         = [[mkNote 60 true; mkNote 62 true; mkNote 60 false]; []].
Proof.
  split; [reflexivity|]. split; [reflexivity|]. split; [reflexivity|].
  destruct (X21_notes_of_the_tracks_the_decoder_frames (sample_header x02)
              sample_tracks [] eq_refl eq_refl eq_refl)
    as [[st [Hrun Hnotes]] _].
  exists st. split; [exact Hrun | exact Hnotes].
Defined.
